(** * UserQuestionEntry: the timed question form of the task front end

    A shallow embedding of [UserQuestionEntry] (the pending-question entry
    of the execution log), of its [QuestionForm] and of its
    [useQuestionCountdown] hook, with the properties of the answer
    builder, of the submit workflow and of the countdown. *)

From Stdlib Require Import ZArith QArith Qround Qabs Qpower Lqa Lia Ascii String.
From Stdlib Require Import SpecFloat.
From stdpp Require Import base decidable list sorting strings pretty.

Local Open Scope Z_scope.
Local Open Scope nat_scope.
Local Open Scope string_scope.
Local Open Scope list_scope.

(** ** Data model (shared/types) *)

(** [QuestionOption]: a label and an optional description. *)
Record QuestionOption := {
  label : string;
  description : option string
}.

(** [UserQuestion]: the fields the form reads. *)
Record UserQuestion := {
  question : string;
  header : option string;
  options : list QuestionOption;
  multiSelect : bool
}.

(** [QuestionAnswer].  [custom_text] is [string | undefined]: the component
    assigns [undefined] to it and calls [.trim()] on it after testing for
    [undefined] only, so [None] stands for [undefined] and the form's extra
    test against [null] is always passed. *)
Record QuestionAnswer := {
  question_index : nat;
  selected_options : list nat;
  custom_text : option string
}.

(** ** JavaScript array primitives used by the form *)

(** The comparison of [Array.prototype.sort] called without a comparator:
    both elements are converted with [String] and the strings are compared
    by code units.  [pretty] is the decimal representation of a natural
    number, which is what [String] returns for an option index. *)
Definition js_sort_le (x y : nat) : Prop :=
  String.leb (pretty x) (pretty y) = true.

#[global] Instance js_sort_le_dec x y : Decision (js_sort_le x y).
Proof. unfold js_sort_le. apply _. Defined.

(** [arr.sort()]: the ordering is total and antisymmetric on numbers, so
    the sorted array is determined by the comparison alone. *)
Definition Array_sort (l : list nat) : list nat := merge_sort js_sort_le l.

(** [arr.filter((i) => i !== x)] *)
Definition Array_remove (x : nat) (l : list nat) : list nat :=
  filter (λ i, i ≠ x) l.

(** ** QuestionForm *)

Module QuestionForm.

(** [hasOtherSelected]: the free text is present. *)
Definition hasOtherSelected (answer : QuestionAnswer) : bool :=
  match custom_text answer with Some _ => true | None => false end.

(** [handleOptionChange(optionIndex, checked)]: the answer handed to
    [onAnswerChange]. *)
Definition handleOptionChange (q : UserQuestion) (answer : QuestionAnswer)
    (optionIndex : nat) (checked : bool) : QuestionAnswer :=
  if multiSelect q then
    let newSelectedOptions :=
      if checked then Array_sort (selected_options answer ++ [optionIndex])
      else Array_remove optionIndex (selected_options answer) in
    {| question_index := question_index answer;
       selected_options := newSelectedOptions;
       custom_text := custom_text answer |}
  else
    let newSelectedOptions := if checked then [optionIndex] else [] in
    if checked && hasOtherSelected answer then
      {| question_index := question_index answer;
         selected_options := newSelectedOptions;
         custom_text := None |}
    else
      {| question_index := question_index answer;
         selected_options := newSelectedOptions;
         custom_text := custom_text answer |}.

(** [handleOtherToggle(checked)] *)
Definition handleOtherToggle (q : UserQuestion) (answer : QuestionAnswer)
    (checked : bool) : QuestionAnswer :=
  if checked then
    {| question_index := question_index answer;
       selected_options :=
         if multiSelect q then selected_options answer else [];
       custom_text := Some "" |}
  else
    {| question_index := question_index answer;
       selected_options := selected_options answer;
       custom_text := None |}.

(** [handleCustomTextChange(text)] *)
Definition handleCustomTextChange (answer : QuestionAnswer) (text : string)
    : QuestionAnswer :=
  {| question_index := question_index answer;
     selected_options := selected_options answer;
     custom_text := Some text |}.

(** The free-text [Input] of the rendered form: it is rendered under
    [hasOtherSelected && ...] in both the checkbox and the radio layout,
    with value [answer.custom_text || ''], and its [onChange] is the only
    caller of [handleCustomTextChange]. *)
Definition otherInput (answer : QuestionAnswer) : option string :=
  if hasOtherSelected answer then Some (default "" (custom_text answer))
  else None.

(** The answers that the form can hold: the empty answer that
    [UserQuestionEntry] creates for the question, and what the three
    handlers make of such an answer. *)
Inductive built (q : UserQuestion) : QuestionAnswer → Prop :=
  | built_empty index :
      built q {| question_index := index;
                 selected_options := [];
                 custom_text := None |}
  | built_option answer optionIndex checked :
      built q answer →
      built q (handleOptionChange q answer optionIndex checked)
  | built_other answer checked :
      built q answer → built q (handleOtherToggle q answer checked)
  | built_text answer text :
      built q answer → built q (handleCustomTextChange answer text).

End QuestionForm.

Import QuestionForm.

(** ** JavaScript numbers

    A JavaScript number is an IEEE-754 binary64 value.  The countdown only
    meets finite values, which are modelled as the rationals they denote;
    every arithmetic operation is the exact operation followed by
    [double_round], the rounding to the nearest value with a 53-bit
    significand, ties to the even significand.  The exponent range is left
    unbounded: the quotients and products of the countdown stay far from
    overflow and from the subnormal range. *)

Module JS.

Definition pow2 (e : Z) : Q := (2 ^ e)%Q.

(** [magnitude x], for positive [x]: the exponent [l] with
    [2^l <= x < 2^(l+1)]. *)
Definition magnitude (x : Q) : Z :=
  let l := (Z.log2 (Qnum x) - Z.log2 (Zpos (Qden x)))%Z in
  if Qle_bool (pow2 l) x then l else (l - 1)%Z.

(** Rounding to the nearest integer, ties to even. *)
Definition round_half_even (s : Q) : Z :=
  let f := Qfloor s in
  match (s - inject_Z f ?= 1 # 2)%Q with
  | Lt => f
  | Gt => (f + 1)%Z
  | Eq => if Z.even f then f else (f + 1)%Z
  end.

Definition double_round_pos (x : Q) : Q :=
  let e := (magnitude x - 52)%Z in
  (inject_Z (round_half_even (x / pow2 e)) * pow2 e)%Q.

Definition double_round (x : Q) : Q :=
  match (x ?= 0)%Q with
  | Eq => 0%Q
  | Gt => double_round_pos x
  | Lt => (- double_round_pos (- x))%Q
  end.

(** [a - b], [a / b] and [a * b] on numbers. *)
Definition sub (a b : Q) : Q := double_round (a - b).
Definition div (a b : Q) : Q := double_round (a / b).
Definition mul (a b : Q) : Q := double_round (a * b).

(** [Math.floor], [Math.round] (ties towards positive infinity),
    [Math.max] and [Math.min]; the first two return integers. *)
Definition Math_floor (x : Q) : Z := Qfloor x.
Definition Math_round (x : Q) : Z := Qfloor (x + (1 # 2)).
Definition Math_max (a b : Z) : Z := Z.max a b.
Definition Math_min (a b : Z) : Z := Z.min a b.

(** Half the distance from 1 to the next number: the bound of the
    relative error of one rounding. *)
Definition ulp_half : Q := pow2 (-53).

End JS.

(** ** useQuestionCountdown

    [requestedAt], [timeoutAt] and [now] are the time values
    [new Date(requestedAt).getTime()], [new Date(timeoutAt).getTime()] and
    [Date.now()], in milliseconds. *)

Module Countdown.

(** [totalSeconds] *)
Definition totalSeconds (requestedAt timeoutAt : Z) : Z :=
  let total :=
    JS.Math_floor (JS.div (JS.sub (inject_Z timeoutAt) (inject_Z requestedAt))
                          (inject_Z 1000)) in
  JS.Math_max 1 total.

(** The value given to [setTimeLeft], at mount and at every tick. *)
Definition remainingSeconds (timeoutAt now : Z) : Z :=
  let remaining := JS.sub (inject_Z timeoutAt) (inject_Z now) in
  JS.Math_max 0 (JS.Math_floor (JS.div remaining (inject_Z 1000))).

(** The number that [percent] rounds: [(timeLeft / totalSeconds) * 100]. *)
Definition ratio100 (timeLeft totalSeconds : Z) : Q :=
  JS.mul (JS.div (inject_Z timeLeft) (inject_Z totalSeconds)) (inject_Z 100).

(** [percent] *)
Definition percent (timeLeft totalSeconds : Z) : Z :=
  JS.Math_max 0
    (JS.Math_min 100
       (JS.Math_round (ratio100 timeLeft totalSeconds))).

End Countdown.

(** ** Strings

    A string is its sequence of code units; the model keeps the code units
    below 256. *)

(** The white space and line terminators that [String.prototype.trim]
    strips, among those code units: TAB, LF, VT, FF, CR, SP and NBSP. *)
Definition is_whitespace (c : ascii) : bool :=
  bool_decide (nat_of_ascii c ∈ [9; 10; 11; 12; 13; 32; 160]).

Fixpoint trimStart (s : string) : string :=
  match s with
  | EmptyString => EmptyString
  | String c r => if is_whitespace c then trimStart r else s
  end.

Fixpoint trimEnd (s : string) : string :=
  match s with
  | EmptyString => EmptyString
  | String c r =>
      match trimEnd r with
      | EmptyString => if is_whitespace c then EmptyString else String c EmptyString
      | r' => String c r'
      end
  end.

(** [s.trim()] *)
Definition trim (s : string) : string := trimEnd (trimStart s).

(** ** UserQuestionEntry *)

Module Collector.

(** The props: the fields of [pendingStatus] that the component reads, and
    [executionProcessId]. *)
Record Props := {
  questions : list UserQuestion;
  question_id : string;
  requested_at : Z;
  timeout_at : Z;
  executionProcessId : option string
}.

(** [UserQuestionResponse] *)
Record UserQuestionResponse := {
  execution_process_id : string;
  response_answers : list QuestionAnswer
}.

(** What a rejected [respond] promise carries: an [Error] with its
    [message], or any other value. *)
Inductive rejection :=
  | ErrorInstance (message : string)
  | OtherValue (shown : string).

(** The calls that leave the components of the front end:
    [userQuestionsApi.respond], [console.error], and
    [queryClient.invalidateQueries], the invalidation of the shared query
    cache that the import dialog performs after an import. *)
Inductive effect :=
  | Respond (questionId : string) (response : UserQuestionResponse)
  | ConsoleError (what : string) (e : rejection)
  | InvalidateQueries (queryKey : list string).

(** The state of the component: its four [useState] cells, the [timeLeft]
    cell of the countdown hook, and whether the interval of the hook is
    set. *)
Record State := {
  isResponding : bool;
  hasResponded : bool;
  error : option string;
  answers : list QuestionAnswer;
  timeLeft : Z;
  timerActive : bool
}.

(** The state after the first render at time [now]. *)
Definition initialState (p : Props) (now : Z) : State :=
  {| isResponding := false;
     hasResponded := false;
     error := None;
     answers :=
       imap (λ index _, {| question_index := index;
                           selected_options := [];
                           custom_text := None |}) (questions p);
     timeLeft := Countdown.remainingSeconds (timeout_at p) now;
     timerActive := true |}.

(** [disabled] *)
Definition disabled (s : State) : bool :=
  isResponding s || hasResponded s || (timeLeft s <=? 0)%Z.

(** The predicate given to [answers.every] *)
Definition answered (answer : QuestionAnswer) : bool :=
  let hasSelection := (0 <? length (selected_options answer))%nat in
  let hasCustomText :=
    match custom_text answer with
    | Some text => negb (String.eqb (trim text) "")
    | None => false
    end in
  hasSelection || hasCustomText.

(** [allQuestionsAnswered] *)
Definition allQuestionsAnswered (s : State) : bool :=
  forallb answered (answers s).

(** The alert under the forms, rendered under [error && ...]: the empty
    string is falsy. *)
Definition alert (s : State) : option string :=
  match error s with
  | Some message => if String.eqb message "" then None else Some message
  | None => None
  end.

(** [handleAnswerChange(questionIndex, answer)].  The forms are rendered
    from [questions], one per index, so [questionIndex] is the index of an
    existing slot. *)
Definition handleAnswerChange (questionIndex : nat) (answer : QuestionAnswer)
    (s : State) : State :=
  {| isResponding := isResponding s;
     hasResponded := hasResponded s;
     error := error s;
     answers := <[questionIndex := answer]> (answers s);
     timeLeft := timeLeft s;
     timerActive := timerActive s |}.

(** [!executionProcessId]: [undefined] and the empty string are falsy. *)
Definition truthy (o : option string) : option string :=
  match o with
  | Some id => if String.eqb id "" then None else Some id
  | None => None
  end.

(** [handleSubmit], up to its [await]: the guards, the two state updates
    and the call. *)
Definition handleSubmit (p : Props) (s : State) : State * list effect :=
  if disabled s || negb (allQuestionsAnswered s) then (s, [])
  else
    match truthy (executionProcessId p) with
    | None =>
        ({| isResponding := isResponding s;
            hasResponded := hasResponded s;
            error := Some "Missing executionProcessId";
            answers := answers s;
            timeLeft := timeLeft s;
            timerActive := timerActive s |}, [])
    | Some id =>
        let response :=
          {| execution_process_id := id; response_answers := answers s |} in
        ({| isResponding := true;
            hasResponded := hasResponded s;
            error := None;
            answers := answers s;
            timeLeft := timeLeft s;
            timerActive := timerActive s |},
         [Respond (question_id p) response])
    end.

(** [handleSubmit] after its [await], when the promise is fulfilled:
    [setHasResponded(true)], then [setIsResponding(false)] of the
    [finally].  [hasResponded] is the [paused] argument of the countdown
    hook, whose effect then clears the interval and sets none. *)
Definition respondFulfilled (s : State) : State * list effect :=
  ({| isResponding := false;
      hasResponded := true;
      error := error s;
      answers := answers s;
      timeLeft := timeLeft s;
      timerActive := false |}, []).

(** The message of the [catch] block. *)
Definition errorMessage (e : rejection) : string :=
  match e with
  | ErrorInstance message => message
  | OtherValue _ => "Failed to send response"
  end.

(** [handleSubmit] after its [await], when the promise is rejected with
    [e]: the [catch] block, then the [finally]. *)
Definition respondRejected (e : rejection) (s : State) : State * list effect :=
  ({| isResponding := false;
      hasResponded := hasResponded s;
      error := Some (errorMessage e);
      answers := answers s;
      timeLeft := timeLeft s;
      timerActive := timerActive s |},
   [ConsoleError "Question respond failed:" e]).

(** The callback of the interval, run at time [now]. *)
Definition tick (p : Props) (now : Z) (s : State) : State :=
  let next := Countdown.remainingSeconds (timeout_at p) now in
  {| isResponding := isResponding s;
     hasResponded := hasResponded s;
     error := error s;
     answers := answers s;
     timeLeft := next;
     timerActive := negb (next <=? 0)%Z |}.

(** What the user can do in the form of one question. *)
Inductive formAction :=
  | OptionChange (optionIndex : nat) (checked : bool)
  | OtherToggle (checked : bool)
  | CustomTextChange (text : string).

(** The answer that the form of question [q] hands to [onAnswerChange];
    [None] when the control of the action is not rendered. *)
Definition formAnswer (q : UserQuestion) (answer : QuestionAnswer)
    (a : formAction) : option QuestionAnswer :=
  match a with
  | OptionChange optionIndex checked =>
      Some (handleOptionChange q answer optionIndex checked)
  | OtherToggle checked => Some (handleOtherToggle q answer checked)
  | CustomTextChange text =>
      match otherInput answer with
      | Some _ => Some (handleCustomTextChange answer text)
      | None => None
      end
  end.

(** What happens to the component. *)
Inductive event :=
  | SubmitClick
  | RespondFulfilled
  | RespondRejected (e : rejection)
  | Tick (now : Z)
  | FormEvent (questionIndex : nat) (a : formAction).

(** One event, handled in the state of the last render.  The promise of
    [respond] is pending exactly while [isResponding] holds, the interval
    calls back only while it is set, and the controls of a form answer
    only while the form is not [disabled]. *)
Definition step (p : Props) (s : State) (ev : event) : State * list effect :=
  match ev with
  | SubmitClick => handleSubmit p s
  | RespondFulfilled => if isResponding s then respondFulfilled s else (s, [])
  | RespondRejected e => if isResponding s then respondRejected e s else (s, [])
  | Tick now => if timerActive s then (tick p now s, []) else (s, [])
  | FormEvent questionIndex a =>
      if disabled s then (s, [])
      else
        match questions p !! questionIndex, answers s !! questionIndex with
        | Some q, Some answer =>
            match formAnswer q answer a with
            | Some answer' => (handleAnswerChange questionIndex answer' s, [])
            | None => (s, [])
            end
        | _, _ => (s, [])
        end
  end.

(** A sequence of events, with the calls made along it. *)
Fixpoint run (p : Props) (s : State) (evs : list event) : State * list effect :=
  match evs with
  | [] => (s, [])
  | ev :: evs' =>
      let '(s1, out1) := step p s ev in
      let '(s2, out2) := run p s1 evs' in
      (s2, out1 ++ out2)
  end.

Definition isRespond (f : effect) : bool :=
  match f with Respond _ _ => true | _ => false end.

Definition isInvalidation (f : effect) : bool :=
  match f with InvalidateQueries _ => true | _ => false end.

End Collector.

(** ** The rendered controls of QuestionForm *)

(** [parseInt(s, 10)]: leading white space is skipped, then a sign is
    read, then the longest run of decimal digits; [None] stands for [NaN],
    the result when no digit is found.  The value is exact below [2^53],
    where every index of an array lies. *)
Definition digitValue (c : ascii) : option N :=
  let n := N_of_ascii c in
  if ((48 <=? n) && (n <=? 57))%N then Some (n - 48)%N else None.

Fixpoint parseDigits (acc : N) (s : string) : N :=
  match s with
  | String c r =>
      match digitValue c with
      | Some d => parseDigits (acc * 10 + d) r
      | None => acc
      end
  | EmptyString => acc
  end.

Definition parseInt (s : string) : option Z :=
  let s1 := trimStart s in
  let '(negative, s2) :=
    match s1 with
    | String "-" r => (true, r)
    | String "+" r => (false, r)
    | _ => (false, s1)
    end in
  match s2 with
  | String c _ =>
      match digitValue c with
      | Some _ =>
          let n := Z.of_N (parseDigits 0 s2) in
          Some (if negative : bool then (- n)%Z else n)
      | None => None
      end
  | EmptyString => None
  end.

Module FormControls.

(** The [checked] prop of the checkbox of an option:
    [answer.selected_options.includes(optionIndex)]. *)
Definition optionChecked (answer : QuestionAnswer) (optionIndex : nat) : bool :=
  bool_decide (optionIndex ∈ selected_options answer).

(** The [value] prop of the [RadioGroup]; [None] is [undefined]. *)
Definition radioValue (answer : QuestionAnswer) : option string :=
  if hasOtherSelected answer then Some "other"
  else match selected_options answer with
       | first :: _ => Some (pretty first)
       | [] => None
       end.

(** The [onValueChange] of the [RadioGroup]: the answer handed to
    [onAnswerChange].  The group reports the value of one of its items,
    ["other"] or [String(optionIndex)]; [None] stands for the values that
    do not parse to an index. *)
Definition onValueChange (q : UserQuestion) (answer : QuestionAnswer)
    (value : string) : option QuestionAnswer :=
  if String.eqb value "other" then Some (handleOtherToggle q answer true)
  else
    match parseInt value with
    | Some optionIndex =>
        if (0 <=? optionIndex)%Z
        then Some (handleOptionChange q answer (Z.to_nat optionIndex) true)
        else None
    | None => None
    end.

End FormControls.

(** ** The texts under the forms *)

Module Texts.

(** [s.padStart(targetLength, fill)] for a fill string of one character. *)
Fixpoint repeatChar (n : nat) (c : ascii) : string :=
  match n with
  | O => EmptyString
  | S n' => String c (repeatChar n' c)
  end.

Definition padStart (targetLength : nat) (fill : ascii) (s : string) : string :=
  (repeatChar (targetLength - String.length s) fill +:+ s)%string.

(** The countdown text:
    [timeLeft > 0 ? `${Math.floor(timeLeft / 60)}:${String(timeLeft % 60).padStart(2, '0')} remaining` : 'Timed out'].
    [%] is the remainder with the sign of the dividend, [String] of an
    integer is its decimal representation. *)
Definition countdownText (timeLeft : Z) : string :=
  if (0 <? timeLeft)%Z then
    (pretty (JS.Math_floor (JS.div (inject_Z timeLeft) (inject_Z 60)))
     +:+ ":" +:+ padStart 2 "0" (pretty (Z.rem timeLeft 60))
     +:+ " remaining")%string
  else "Timed out".

End Texts.

(** ** NotionImportDialog *)

(** A JavaScript [Set] of strings: its elements in insertion order, each
    once.  [Array.from] of the set is this list. *)
Module JSSet.

Definition has (x : string) (set : list string) : bool :=
  bool_decide (x ∈ set).

Definition add (x : string) (set : list string) : list string :=
  if has x set then set else set ++ [x].

Definition delete (x : string) (set : list string) : list string :=
  filter (λ y, y ≠ x) set.

(** [new Set(iterable)] *)
Definition ofList (xs : list string) : list string :=
  foldl (λ set x, add x set) [] xs.

Definition size (set : list string) : nat := length set.

End JSSet.

Module NotionImport.

(** [NotionImportPreviewItem] and [NotionImportPreviewResponse]: the fields
    that decide what the dialog does. *)
Record PreviewItem := {
  notion_id : string;
  title : string;
  will_import : bool
}.

Record PreviewResponse := {
  tasks : list PreviewItem;
  importable_count : nat;
  duplicate_count : nat
}.

(** The state of the dialog: [selectedIds], and [importMutation.isPending],
    which holds from the call of the mutation until it settles. *)
Record State := {
  selectedIds : list string;
  isPending : bool
}.

Definition initialState : State := {| selectedIds := []; isPending := false |}.

(** The calls that leave the dialog. *)
Inductive effect :=
  | Import (projectId : string) (notionIds : list string)
  | InvalidateQueries (queryKey : list string)
  | ModalResolve
  | ModalReject
  | ModalHide.

(** [importableTasks]; [preview] is [None] until the query has data. *)
Definition importableTasks (preview : option PreviewResponse) : list PreviewItem :=
  match preview with
  | Some response => List.filter will_import (tasks response)
  | None => []
  end.

(** [allSelected] *)
Definition allSelected (preview : option PreviewResponse) (s : State) : bool :=
  (0 <? length (importableTasks preview))%nat &&
  forallb (λ t, JSSet.has (notion_id t) (selectedIds s)) (importableTasks preview).

(** [handleSelectAll] *)
Definition handleSelectAll (preview : option PreviewResponse) (s : State) : State :=
  if allSelected preview s then
    {| selectedIds := JSSet.ofList []; isPending := isPending s |}
  else
    {| selectedIds := JSSet.ofList (notion_id <$> importableTasks preview);
       isPending := isPending s |}.

(** [toggleTask(notionId)] *)
Definition toggleTask (notionId : string) (s : State) : State :=
  {| selectedIds :=
       if JSSet.has notionId (selectedIds s)
       then JSSet.delete notionId (selectedIds s)
       else JSSet.add notionId (selectedIds s);
     isPending := isPending s |}.

(** [handleImport]: the call of the mutation. *)
Definition handleImport (projectId : string) (s : State) : State * list effect :=
  ({| selectedIds := selectedIds s; isPending := true |},
   [Import projectId (selectedIds s)]).

(** [onSuccess] of the mutation. *)
Definition onSuccess (s : State) : State * list effect :=
  ({| selectedIds := selectedIds s; isPending := false |},
   [InvalidateQueries ["tasks"]; ModalResolve; ModalHide]).

(** [handleClose] *)
Definition handleClose (s : State) : State * list effect :=
  (s, [ModalReject; ModalHide]).

(** The [disabled] prop of the import button. *)
Definition importDisabled (s : State) : bool :=
  (JSSet.size (selectedIds s) =? 0)%nat || isPending s.

(** What happens to the dialog: a click on the checkbox of the task at a
    position of the list, on the select-all button, on the import button
    or on cancel, and the settling of the mutation. *)
Inductive event :=
  | ToggleClick (position : nat)
  | SelectAllClick
  | ImportClick
  | ImportSucceeded
  | ImportFailed
  | CloseClick.

(** One event.  The checkbox of a task that will not be imported is
    disabled, the select-all button is rendered while the preview has
    importable tasks, the import button is disabled by [importDisabled],
    and the mutation settles only while it is pending. *)
Definition step (projectId : string) (preview : option PreviewResponse)
    (s : State) (ev : event) : State * list effect :=
  match ev with
  | ToggleClick position =>
      match preview with
      | Some response =>
          match tasks response !! position with
          | Some task =>
              if will_import task then (toggleTask (notion_id task) s, [])
              else (s, [])
          | None => (s, [])
          end
      | None => (s, [])
      end
  | SelectAllClick =>
      if (0 <? length (importableTasks preview))%nat
      then (handleSelectAll preview s, [])
      else (s, [])
  | ImportClick =>
      if importDisabled s then (s, []) else handleImport projectId s
  | ImportSucceeded => if isPending s then onSuccess s else (s, [])
  | ImportFailed =>
      if isPending s
      then ({| selectedIds := selectedIds s; isPending := false |}, [])
      else (s, [])
  | CloseClick => handleClose s
  end.

Fixpoint run (projectId : string) (preview : option PreviewResponse)
    (s : State) (evs : list event) : State * list effect :=
  match evs with
  | [] => (s, [])
  | ev :: evs' =>
      let '(s1, out1) := step projectId preview s ev in
      let '(s2, out2) := run projectId preview s1 evs' in
      (s2, out1 ++ out2)
  end.

(** The ids of the tasks of the preview that will be imported. *)
Definition importableIds (preview : option PreviewResponse) : list string :=
  notion_id <$> importableTasks preview.

(** The imports and the invalidations among the calls made, and the
    settlings of the mutation among the events. *)
Definition isImport (f : effect) : bool :=
  match f with Import _ _ => true | _ => false end.

Definition isInvalidation (f : effect) : bool :=
  match f with InvalidateQueries _ => true | _ => false end.

Definition isSettled (ev : event) : bool :=
  match ev with ImportSucceeded | ImportFailed => true | _ => false end.

Definition countImports (out : list effect) : nat :=
  length (filter (λ f, isImport f = true) out).

Definition countInvalidations (out : list effect) : nat :=
  length (filter (λ f, isInvalidation f = true) out).

Definition countSettled (evs : list event) : nat :=
  length (filter (λ ev, isSettled ev = true) evs).

(** A call of the dialog that, when it is an import, sends the project id
    and a non-empty list of distinct ids of importable tasks. *)
Definition wellFormedImport (projectId : string)
    (preview : option PreviewResponse) (f : effect) : Prop :=
  match f with
  | Import project ids =>
      project = projectId ∧ ids ≠ [] ∧ NoDup ids ∧
      ∀ x, x ∈ ids → x ∈ importableIds preview
  | _ => True
  end.

End NotionImport.

(** ** Sample data *)

Definition sampleOptions (n : nat) : list QuestionOption :=
  (λ i, {| label := pretty i; description := None |}) <$> seq 0 n.

(** A question with twelve options, in its two modes. *)
Definition sampleQuestion (multi : bool) : UserQuestion :=
  {| question := "Which ones?";
     header := None;
     options := sampleOptions 12;
     multiSelect := multi |}.

Definition sampleAnswer (selected : list nat) (text : option string)
    : QuestionAnswer :=
  {| question_index := 0; selected_options := selected; custom_text := text |}.

Definition sampleProps : Collector.Props :=
  {| Collector.questions := [sampleQuestion false; sampleQuestion true];
     Collector.question_id := "question-1";
     Collector.requested_at := 1700000000000;
     Collector.timeout_at := 1700000060000;
     Collector.executionProcessId := Some "process-1" |}.

(** The state after the user has selected A in the first question and X
    and Y in the second one, fifteen seconds after the request. *)
Definition sampleState : Collector.State :=
  fst (Collector.run sampleProps
         (Collector.initialState sampleProps 1700000015000)
         [Collector.FormEvent 0 (Collector.OptionChange 0 true);
          Collector.FormEvent 1 (Collector.OptionChange 0 true);
          Collector.FormEvent 1 (Collector.OptionChange 1 true)]).

(** A preview with two importable tasks and one duplicate. *)
Definition samplePreview : NotionImport.PreviewResponse :=
  {| NotionImport.tasks :=
       [ {| NotionImport.notion_id := "n1"; NotionImport.title := "First";
            NotionImport.will_import := true |};
         {| NotionImport.notion_id := "n2"; NotionImport.title := "Second";
            NotionImport.will_import := false |};
         {| NotionImport.notion_id := "n3"; NotionImport.title := "Third";
            NotionImport.will_import := true |} ];
     NotionImport.importable_count := 2;
     NotionImport.duplicate_count := 1 |}.

(** ** The binary64 operations of the Standard Library

    [SpecFloat] defines the operations of IEEE-754 on integers; with the
    parameters of binary64 they are the operations of JavaScript numbers,
    and [JS.div] and [JS.mul] are compared with them below. *)

Definition binary64_of_Z (z : positive) : spec_float := S754_finite false z 0.
Definition binary64_div (a b : spec_float) : spec_float := SFdiv 53 1024 a b.
Definition binary64_mul (a b : spec_float) : spec_float := SFmul 53 1024 a b.

(** The rational that a finite float denotes. *)
Definition binary64_value (f : spec_float) : Q :=
  match f with
  | S754_finite s m e =>
      ((if s then - (1) else 1) * inject_Z (Zpos m) * JS.pow2 e)%Q
  | _ => 0%Q
  end.

(** ** Predicates of the statements *)

(** An answer with a selected option or with free text that is not blank. *)
Definition nonEmptyAnswer (answer : QuestionAnswer) : Prop :=
  selected_options answer ≠ [] ∨
  ∃ text, custom_text answer = Some text ∧ trim text ≠ "".

(** The events that settle the promise of [respond]. *)
Definition isSettling (ev : Collector.event) : bool :=
  match ev with
  | Collector.RespondFulfilled | Collector.RespondRejected _ => true
  | _ => false
  end.

Definition noRespond (out : list Collector.effect) : Prop :=
  Forall (λ f, Collector.isRespond f = false) out.

Definition noInvalidation (out : list Collector.effect) : Prop :=
  Forall (λ f, Collector.isInvalidation f = false) out.

(** A string without a character that is not white space. *)
Definition blank (s : string) : bool :=
  forallb is_whitespace (list_ascii_of_string s).

(** The number of calls of [respond] among the calls made, and the number
    of rejections among the events. *)
Definition countRespond (out : list Collector.effect) : nat :=
  length (filter (λ f, Collector.isRespond f = true) out).

Definition isRejection (ev : Collector.event) : bool :=
  match ev with Collector.RespondRejected _ => true | _ => false end.

Definition countRejected (evs : list Collector.event) : nat :=
  length (filter (λ ev, isRejection ev = true) evs).

(** A call that is [respond] for the question set of the props, with the
    process id of the props and one non-empty answer per question, each at
    the index it names. *)
Definition wellFormedCall (p : Collector.Props) (f : Collector.effect) : Prop :=
  match f with
  | Collector.Respond questionId response =>
      questionId = Collector.question_id p ∧
      Collector.executionProcessId p
        = Some (Collector.execution_process_id response) ∧
      Collector.execution_process_id response ≠ "" ∧
      length (Collector.response_answers response)
        = length (Collector.questions p) ∧
      (∀ i answer, Collector.response_answers response !! i = Some answer →
                   question_index answer = i) ∧
      Forall nonEmptyAnswer (Collector.response_answers response)
  | Collector.ConsoleError _ _ => True
  | Collector.InvalidateQueries _ => False
  end.

(** The slots match the questions: one answer per question, each carrying
    its own index. *)
Definition slotsIndexed (p : Collector.Props) (s : Collector.State) : Prop :=
  length (Collector.answers s) = length (Collector.questions p) ∧
  ∀ i answer, Collector.answers s !! i = Some answer →
              question_index answer = i.

(** What the form of a question keeps true of its answer: in a
    single-select question at most one option, and no option beside free
    text; in a multi-select question the order of [sort]. *)
Definition slotInvariant (q : UserQuestion) (answer : QuestionAnswer) : Prop :=
  if multiSelect q then Sorted js_sort_le (selected_options answer)
  else (length (selected_options answer) ≤ 1)%nat ∧
       (hasOtherSelected answer = true → selected_options answer = []).

(** * Properties *)

(** ** The order of [Array.prototype.sort] on option indices *)

Lemma string_compare_trans (a b c : string) :
  String.compare a b ≠ Gt → String.compare b c ≠ Gt → String.compare a c ≠ Gt.
Proof.
  revert b c. induction a as [|x a IH]; intros [|y b] [|z c]; simpl; try congruence.
  unfold Ascii.compare.
  destruct (N.compare_spec (N_of_ascii x) (N_of_ascii y)) as [Hxy|Hxy|Hxy];
    destruct (N.compare_spec (N_of_ascii y) (N_of_ascii z)) as [Hyz|Hyz|Hyz];
    try congruence.
  - rewrite Hxy, Hyz, N.compare_refl. apply IH.
  - intros _ _. rewrite Hxy. apply N.compare_lt_iff in Hyz. rewrite Hyz. congruence.
  - intros _ _. rewrite <- Hyz. apply N.compare_lt_iff in Hxy. rewrite Hxy. congruence.
  - intros _ _. assert (H : (N_of_ascii x < N_of_ascii z)%N) by lia.
    apply N.compare_lt_iff in H. rewrite H. congruence.
Qed.

Lemma string_leb_compare (a b : string) :
  String.leb a b = true ↔ String.compare a b ≠ Gt.
Proof. unfold String.leb. destruct (String.compare a b); split; congruence. Qed.

#[local] Instance js_sort_le_total : Total js_sort_le.
Proof. intros x y. apply String.leb_total. Qed.

#[local] Instance js_sort_le_trans : Transitive js_sort_le.
Proof.
  intros x y z. unfold js_sort_le. rewrite !string_leb_compare.
  apply string_compare_trans.
Qed.

#[local] Instance js_sort_le_antisymm : AntiSymm (=) js_sort_le.
Proof.
  intros x y Hxy Hyx. apply (inj pretty). by apply String.leb_antisym.
Qed.

Lemma Array_sort_Sorted (l : list nat) : Sorted js_sort_le (Array_sort l).
Proof. apply (Sorted_merge_sort js_sort_le). Qed.

Lemma Array_sort_Permutation (l : list nat) : Array_sort l ≡ₚ l.
Proof. apply (merge_sort_Permutation js_sort_le). Qed.

Lemma Array_remove_StronglySorted (x : nat) (l : list nat) :
  StronglySorted js_sort_le l → StronglySorted js_sort_le (Array_remove x l).
Proof.
  unfold Array_remove. induction 1 as [|y l Hl IH Hy]; [constructor|].
  rewrite filter_cons. case_decide; [|done].
  constructor; [done|].
  rewrite Forall_forall in Hy |- *. intros z Hz.
  apply list_elem_of_filter in Hz as [_ Hz]. auto.
Qed.

Lemma Array_remove_Sorted (x : nat) (l : list nat) :
  Sorted js_sort_le l → Sorted js_sort_le (Array_remove x l).
Proof.
  intros H. apply Sorted.StronglySorted_Sorted.
  apply Array_remove_StronglySorted.
  by apply (Sorted_StronglySorted js_sort_le).
Qed.

Lemma Array_remove_absent (x : nat) (l : list nat) :
  x ∉ l → Array_remove x l = l.
Proof.
  unfold Array_remove. induction l as [|y l IH]; [done|].
  rewrite not_elem_of_cons. intros [Hne Hl].
  rewrite filter_cons. case_decide; [by rewrite IH|congruence].
Qed.

Lemma Array_remove_sort_snoc (x : nat) (l : list nat) :
  x ∉ l → Array_remove x (Array_sort (l ++ [x])) ≡ₚ l.
Proof.
  intros Hx. unfold Array_remove. rewrite Array_sort_Permutation.
  rewrite filter_app. fold (Array_remove x l). rewrite Array_remove_absent by done.
  rewrite filter_cons. case_decide; [congruence|]. by rewrite filter_nil, app_nil_r.
Qed.

(** The list of an answer of a multi-select question is always in the
    order of [sort]. *)
Lemma built_multi_Sorted (q : UserQuestion) (answer : QuestionAnswer) :
  multiSelect q = true → built q answer →
  Sorted js_sort_le (selected_options answer).
Proof.
  intros Hq. induction 1 as [index|answer optionIndex checked _ IH|answer checked _ IH|answer text _ IH].
  - constructor.
  - unfold handleOptionChange. rewrite Hq. simpl. destruct checked.
    + apply Array_sort_Sorted.
    + by apply Array_remove_Sorted.
  - unfold handleOtherToggle. destruct checked; simpl; [by rewrite Hq|done].
  - done.
Qed.

(** ** The answer builder *)

(** A number is not in a list of other numbers. *)
Ltac absent_from_list :=
  rewrite ?not_elem_of_cons; repeat split; solve [lia | apply not_elem_of_nil].

Lemma handleOptionChange_multi_add (q : UserQuestion) (answer : QuestionAnswer)
    (optionIndex : nat) :
  multiSelect q = true →
  selected_options (handleOptionChange q answer optionIndex true)
    ≡ₚ optionIndex :: selected_options answer.
Proof.
  intros Hq. unfold handleOptionChange. rewrite Hq. simpl.
  rewrite Array_sort_Permutation. by rewrite Permutation_app_comm.
Qed.

Lemma handleOptionChange_multi_remove (q : UserQuestion) (answer : QuestionAnswer)
    (optionIndex i : nat) :
  multiSelect q = true →
  i ∈ selected_options (handleOptionChange q answer optionIndex false)
    ↔ i ∈ selected_options answer ∧ i ≠ optionIndex.
Proof.
  intros Hq. unfold handleOptionChange. rewrite Hq. simpl.
  unfold Array_remove. by rewrite list_elem_of_filter, (comm and).
Qed.

Lemma handleOptionChange_multi_NoDup (q : UserQuestion) (answer : QuestionAnswer)
    (optionIndex : nat) (checked : bool) :
  multiSelect q = true →
  NoDup (selected_options answer) →
  (checked = true → optionIndex ∉ selected_options answer) →
  NoDup (selected_options (handleOptionChange q answer optionIndex checked)).
Proof.
  intros Hq Hnd Hx. destruct checked.
  - rewrite handleOptionChange_multi_add by done.
    apply NoDup_cons; auto.
  - unfold handleOptionChange. rewrite Hq. simpl. by apply NoDup_filter.
Qed.

(** C4.  In a multi-select question with more than ten options, checking
    option 10 while option 2 is selected leaves the list [10, 2]: [sort]
    compares the indices as strings, so the list is not in ascending
    numeric order. *)
Theorem handleOptionChange_multi_sort_not_numeric :
  let answer' :=
    handleOptionChange (sampleQuestion true) (sampleAnswer [2] None) 10 true in
  selected_options answer' = [10; 2] ∧ ¬ Sorted le (selected_options answer').
Proof.
  split; [by vm_compute|].
  change (¬ Sorted le [10; 2]). intros H.
  apply Sorted_inv in H as [_ H]. apply HdRel_inv in H. lia.
Qed.

(** Checking and then unchecking an option that is not selected gives a
    permutation of the former list, and the former list itself when that
    list is in the order of [sort]. *)
Lemma toggle_twice_Permutation (q : UserQuestion) (answer : QuestionAnswer)
    (i : nat) :
  multiSelect q = true →
  i ∉ selected_options answer →
  let answer'' :=
    handleOptionChange q (handleOptionChange q answer i true) i false in
  selected_options answer'' ≡ₚ selected_options answer ∧
  (Sorted js_sort_le (selected_options answer) →
   selected_options answer'' = selected_options answer).
Proof.
  intros Hq Hi answer''.
  assert (Hperm : selected_options answer'' ≡ₚ selected_options answer).
  { subst answer''. unfold handleOptionChange. rewrite Hq. simpl.
    by apply Array_remove_sort_snoc. }
  assert (Hsorted : Sorted js_sort_le (selected_options answer'')).
  { subst answer''. unfold handleOptionChange. rewrite Hq. simpl.
    apply Array_remove_Sorted, Array_sort_Sorted. }
  split; [done|]. intros Hs. by apply (Sorted_unique js_sort_le).
Qed.

(** The order matters: the list [2, 1], which no form holds, comes back
    as [1, 2]. *)
Example toggle_twice_out_of_order :
  selected_options
    (handleOptionChange (sampleQuestion true)
       (handleOptionChange (sampleQuestion true) (sampleAnswer [2; 1] None) 3 true)
       3 false)
  = [1; 2].
Proof. by vm_compute. Qed.

(** C5.  In a multi-select question, for every answer that the form holds
    (the empty answer of the first render, and what the handlers make of
    it) and every option [i] that is not selected in it, checking option
    [i] and then unchecking it gives back exactly the former list of
    selected options. *)
Theorem toggle_twice_multi (q : UserQuestion) (answer : QuestionAnswer) (i : nat) :
  multiSelect q = true →
  built q answer →
  i ∉ selected_options answer →
  selected_options
    (handleOptionChange q (handleOptionChange q answer i true) i false)
  = selected_options answer.
Proof.
  intros Hq Hb Hi.
  destruct (toggle_twice_Permutation q answer i Hq Hi) as [_ Hexact].
  apply Hexact. by apply (built_multi_Sorted q).
Qed.

Lemma toggle_twice_multi_witness :
  let q := sampleQuestion true in
  let answer :=
    handleOptionChange q
      (handleOptionChange q
         (handleOptionChange q
            {| question_index := 1; selected_options := []; custom_text := None |}
            2 true)
         10 true)
      1 true in
  selected_options answer = [1; 10; 2] ∧
  selected_options
    (handleOptionChange q (handleOptionChange q answer 3 true) 3 false)
  = selected_options answer.
Proof.
  split; [by vm_compute|].
  apply (toggle_twice_multi (sampleQuestion true)
           (handleOptionChange (sampleQuestion true)
              (handleOptionChange (sampleQuestion true)
                 (handleOptionChange (sampleQuestion true)
                    {| question_index := 1; selected_options := [];
                       custom_text := None |}
                    2 true)
                 10 true)
              1 true) 3).
  - reflexivity.
  - do 3 apply built_option. apply built_empty.
  - vm_compute selected_options. absent_from_list.
Defined.

(** C6.  In a single-select question, whatever the answer was, selecting
    option [i] leaves the list [[i]] and no free text, and deselecting it
    leaves the empty list. *)
Theorem handleOptionChange_single (q : UserQuestion) (answer : QuestionAnswer)
    (i : nat) :
  multiSelect q = false →
  selected_options (handleOptionChange q answer i true) = [i] ∧
  custom_text (handleOptionChange q answer i true) = None ∧
  selected_options (handleOptionChange q answer i false) = [].
Proof.
  intros Hq. unfold handleOptionChange, hasOtherSelected. rewrite Hq.
  destruct (custom_text answer) as [text|] eqn:Htext; simpl; by rewrite ?Htext.
Qed.

Lemma handleOptionChange_single_witness :
  let q := sampleQuestion false in
  let answer := sampleAnswer [4] (Some "something else") in
  selected_options (handleOptionChange q answer 1 true) = [1] ∧
  custom_text (handleOptionChange q answer 1 true) = None ∧
  selected_options (handleOptionChange q answer 1 false) = [].
Proof.
  apply (handleOptionChange_single (sampleQuestion false)
           (sampleAnswer [4] (Some "something else")) 1).
  reflexivity.
Defined.

(** C7.  Enabling "other" sets the free text to the empty string, empties
    the list of selected options of a single-select question and keeps that
    of a multi-select question; disabling "other" removes the free text. *)
Theorem handleOtherToggle_spec (q : UserQuestion) (answer : QuestionAnswer) :
  custom_text (handleOtherToggle q answer true) = Some "" ∧
  selected_options (handleOtherToggle q answer true)
    = (if multiSelect q then selected_options answer else []) ∧
  custom_text (handleOtherToggle q answer false) = None.
Proof. done. Qed.

(** The handler itself does not test whether "other" is active: the test
    is in the render, which shows the text input that calls the handler
    only while "other" is active. *)
Example handleCustomTextChange_has_no_guard :
  custom_text (handleCustomTextChange (sampleAnswer [1] None) "x") = Some "x".
Proof. reflexivity. Qed.

(** C8.  While "other" is not active the form has no text input: setting
    the free text does nothing, no answer is handed to [onAnswerChange]
    and the component stays in the same state.  While "other" is active
    the form hands over the former answer with the free text set to
    [text], which replaces the answer of the question while the form is
    not disabled. *)
Theorem handleCustomTextChange_spec (q : UserQuestion) (answer : QuestionAnswer)
    (text : string) :
  custom_text (handleCustomTextChange answer text) = Some text ∧
  otherInput answer = custom_text answer ∧
  Collector.formAnswer q answer (Collector.CustomTextChange text)
    = (if hasOtherSelected answer
       then Some (handleCustomTextChange answer text) else None) ∧
  (∀ p s i,
     Collector.questions p !! i = Some q →
     Collector.answers s !! i = Some answer →
     let ev := Collector.FormEvent i (Collector.CustomTextChange text) in
     (hasOtherSelected answer = false → Collector.step p s ev = (s, [])) ∧
     (hasOtherSelected answer = true → Collector.disabled s = false →
      Collector.answers (fst (Collector.step p s ev)) !! i
      = Some {| question_index := question_index answer;
                selected_options := selected_options answer;
                custom_text := Some text |} ∧
      snd (Collector.step p s ev) = [])).
Proof.
  split; [done|]. split; [|split].
  - unfold otherInput, hasOtherSelected. by destruct (custom_text answer).
  - unfold Collector.formAnswer, otherInput, hasOtherSelected.
    by destruct (custom_text answer).
  - intros p s i Hq Ha. simpl. rewrite Hq, Ha. split.
    + intros Hother. unfold otherInput. rewrite Hother.
      by destruct (Collector.disabled s).
    + intros Hother Hd. unfold otherInput. rewrite Hother, Hd. simpl.
      split; [|done]. apply list_lookup_insert_eq. by eapply lookup_lt_Some.
Qed.

Lemma handleCustomTextChange_spec_witness :
  let ev := Collector.FormEvent 0 (Collector.CustomTextChange "neither") in
  let s := fst (Collector.step sampleProps sampleState
                  (Collector.FormEvent 0 (Collector.OtherToggle true))) in
  Collector.step sampleProps sampleState ev = (sampleState, []) ∧
  Collector.answers (fst (Collector.step sampleProps s ev)) !! 0
  = Some {| question_index := 0; selected_options := [];
            custom_text := Some "neither" |}.
Proof.
  split.
  - destruct (handleCustomTextChange_spec (sampleQuestion false)
                {| question_index := 0; selected_options := [0];
                   custom_text := None |} "neither") as (_ & _ & _ & H).
    destruct (H sampleProps sampleState 0) as [H1 _];
      [reflexivity|by vm_compute|].
    by apply H1.
  - destruct (handleCustomTextChange_spec (sampleQuestion false)
                {| question_index := 0; selected_options := [];
                   custom_text := Some "" |} "neither") as (_ & _ & _ & H).
    destruct (H sampleProps
                (fst (Collector.step sampleProps sampleState
                        (Collector.FormEvent 0 (Collector.OtherToggle true)))) 0)
      as [_ H2]; [reflexivity|by vm_compute|].
    apply H2; by vm_compute.
Defined.

(** C10.  [handleCustomTextChange] and [handleOtherToggle(false)] keep the
    list of selected options and the question index, in both modes. *)
Theorem custom_text_handlers_frame (q : UserQuestion) (answer : QuestionAnswer)
    (text : string) :
  selected_options (handleCustomTextChange answer text) = selected_options answer ∧
  question_index (handleCustomTextChange answer text) = question_index answer ∧
  selected_options (handleOtherToggle q answer false) = selected_options answer ∧
  question_index (handleOtherToggle q answer false) = question_index answer.
Proof. done. Qed.

(** ** The submit workflow *)

Import Collector.

Example trim_inner_space : trim "  a b  " = "a b".
Proof. reflexivity. Qed.

Example trim_blank : trim "   " = "".
Proof. reflexivity. Qed.

Lemma answered_spec (answer : QuestionAnswer) :
  answered answer = true ↔ nonEmptyAnswer answer.
Proof.
  unfold answered, nonEmptyAnswer.
  rewrite orb_true_iff, Nat.ltb_lt. split.
  - intros [Hsel|Htext].
    + left. destruct (selected_options answer); [simpl in Hsel; lia|done].
    + right. destruct (custom_text answer) as [text|]; [|done].
      exists text. split; [done|].
      apply negb_true_iff in Htext. by apply String.eqb_neq.
  - intros [Hsel|(text & Htext & Hblank)].
    + left. destruct (selected_options answer); [done|simpl; lia].
    + right. rewrite Htext. apply negb_true_iff. by apply String.eqb_neq.
Qed.

Lemma allQuestionsAnswered_spec (s : State) :
  allQuestionsAnswered s = true ↔ Forall nonEmptyAnswer (answers s).
Proof.
  unfold allQuestionsAnswered. rewrite forallb_forall, Forall_forall.
  split; intros H a Ha.
  - apply answered_spec, H. by apply list_elem_of_In.
  - apply answered_spec, H. by apply list_elem_of_In.
Qed.

Lemma disabled_false (s : State) :
  disabled s = false ↔
  isResponding s = false ∧ hasResponded s = false ∧ (0 < timeLeft s)%Z.
Proof.
  unfold disabled. rewrite !orb_false_iff, Z.leb_gt. tauto.
Qed.

(** The component keeps one answer per question. *)
Lemma initialState_answers_length (p : Props) (now : Z) :
  length (answers (initialState p now)) = length (questions p).
Proof. unfold initialState. simpl. apply length_imap. Qed.

Lemma step_answers_length (p : Props) (s : State) (ev : event) :
  length (answers (fst (step p s ev))) = length (answers s).
Proof.
  destruct ev as [| |e|now|i a]; simpl.
  - unfold handleSubmit.
    destruct (disabled s || negb (allQuestionsAnswered s)); [done|].
    by destruct (truthy (executionProcessId p)).
  - by destruct (isResponding s).
  - by destruct (isResponding s).
  - by destruct (timerActive s).
  - destruct (disabled s); [done|].
    destruct (questions p !! i), (answers s !! i); try done.
    destruct (formAnswer _ _ _); [|done].
    simpl. apply length_insert.
Qed.

(** Once [hasResponded] is set, no event clears it and no event makes the
    component call [respond]. *)
Lemma step_hasResponded (p : Props) (s : State) (ev : event) :
  hasResponded s = true →
  hasResponded (fst (step p s ev)) = true ∧ noRespond (snd (step p s ev)).
Proof.
  intros H. assert (Hd : disabled s = true).
  { unfold disabled. rewrite H. by rewrite orb_true_r. }
  destruct ev as [| |e|now|i a]; simpl.
  - unfold handleSubmit. rewrite Hd. simpl. by split; [|constructor].
  - destruct (isResponding s); simpl; by split; [|constructor].
  - destruct (isResponding s); simpl; [|by split; [|constructor]].
    split; [done|]. by repeat constructor.
  - destruct (timerActive s); simpl; by split; [|constructor].
  - rewrite Hd. simpl. by split; [|constructor].
Qed.

Lemma run_hasResponded (p : Props) (evs : list event) (s : State) :
  hasResponded s = true →
  hasResponded (fst (run p s evs)) = true ∧ noRespond (snd (run p s evs)).
Proof.
  revert s. induction evs as [|ev evs IH]; intros s H; simpl.
  - by split; [|constructor].
  - destruct (step_hasResponded p s ev H) as [H1 Hout1].
    destruct (step p s ev) as [s1 out1]. simpl in *.
    destruct (IH s1 H1) as [H2 Hout2].
    destruct (run p s1 evs) as [s2 out2]. simpl in *.
    split; [done|]. by apply Forall_app.
Qed.

(** No event makes the component invalidate a query. *)
Lemma step_noInvalidation (p : Props) (s : State) (ev : event) :
  noInvalidation (snd (step p s ev)).
Proof.
  destruct ev as [| |e|now|i a]; simpl.
  - unfold handleSubmit.
    destruct (disabled s || negb (allQuestionsAnswered s)); [constructor|].
    destruct (truthy (executionProcessId p)); by repeat constructor.
  - destruct (isResponding s); constructor.
  - destruct (isResponding s); by repeat constructor.
  - destruct (timerActive s); constructor.
  - destruct (disabled s); [constructor|].
    destruct (questions p !! i), (answers s !! i); try constructor.
    destruct (formAnswer _ _ _); constructor.
Qed.

Lemma run_noInvalidation (p : Props) (evs : list event) (s : State) :
  noInvalidation (snd (run p s evs)).
Proof.
  revert s. induction evs as [|ev evs IH]; intros s; simpl; [constructor|].
  pose proof (step_noInvalidation p s ev) as H1.
  destruct (step p s ev) as [s1 out1].
  specialize (IH s1). destruct (run p s1 evs) as [s2 out2]. simpl in *.
  by apply Forall_app.
Qed.

(** C1, as stated: the user submits the sample answers and [respond] is
    fulfilled; the component has responded, and its only call was
    [respond]: it has invalidated nothing. *)
Lemma submit_success_no_invalidation_counterexample :
  let result := run sampleProps sampleState [SubmitClick; RespondFulfilled] in
  hasResponded (fst result) = true ∧
  ¬ Exists (λ f, isInvalidation f = true) (snd result).
Proof.
  split; [by vm_compute|].
  intros H. apply Exists_exists in H as (f & Hf & Hinv).
  pose proof (run_noInvalidation sampleProps [SubmitClick; RespondFulfilled] sampleState) as Hno.
  unfold noInvalidation in Hno. rewrite Forall_forall in Hno.
  specialize (Hno f Hf). congruence.
Qed.

(** C1, amended.  When [respond] is fulfilled the component records that
    it has responded, which disables the form for good and stops the
    countdown, keeps the answers and the error, and makes no call; and no
    sequence of events makes it invalidate a query. *)
Theorem respondFulfilled_spec (p : Props) (s : State) (evs : list event) :
  isResponding s = true →
  let s' := fst (step p s RespondFulfilled) in
  hasResponded s' = true ∧ isResponding s' = false ∧ disabled s' = true ∧
  timerActive s' = false ∧ timeLeft s' = timeLeft s ∧
  answers s' = answers s ∧ error s' = error s ∧
  snd (step p s RespondFulfilled) = [] ∧
  noInvalidation (snd (run p s evs)).
Proof.
  intros H. simpl. rewrite H. simpl.
  repeat split; apply run_noInvalidation.
Qed.

Lemma respondFulfilled_spec_witness :
  let s := fst (step sampleProps sampleState SubmitClick) in
  let s' := fst (step sampleProps s RespondFulfilled) in
  isResponding s = true ∧
  hasResponded s' = true ∧ isResponding s' = false ∧ disabled s' = true ∧
  timerActive s' = false ∧ timeLeft s' = timeLeft s ∧
  answers s' = answers s ∧ error s' = error s ∧
  snd (step sampleProps s RespondFulfilled) = [] ∧
  noInvalidation (snd (run sampleProps s [Tick 1700000016000; SubmitClick])).
Proof.
  split; [reflexivity|].
  apply (respondFulfilled_spec sampleProps
           (fst (step sampleProps sampleState SubmitClick))
           [Tick 1700000016000; SubmitClick]).
  reflexivity.
Defined.

(** The call of the end-to-end example: the answers [[0]] and [[0, 1]],
    without free text. *)
Example submit_sample_payload :
  snd (step sampleProps sampleState SubmitClick)
  = [Respond "question-1"
       {| execution_process_id := "process-1";
          response_answers :=
            [ {| question_index := 0; selected_options := [0]; custom_text := None |};
              {| question_index := 1; selected_options := [0; 1]; custom_text := None |} ] |}].
Proof. by vm_compute. Qed.

(** C2.  [handleSubmit] calls [respond] only if every answer has a
    selected option or free text that is not blank, the countdown is above
    zero, no submission is in flight and none has succeeded; if one of
    these fails, it does nothing at all.  A fulfilled [respond] sets
    [hasResponded], and from a state where it is set no sequence of events
    leads to another call of [respond]. *)
Theorem handleSubmit_guard (p : Props) (s : State) (evs : list event) :
  (snd (handleSubmit p s) ≠ [] →
   Forall nonEmptyAnswer (answers s) ∧ (0 < timeLeft s)%Z ∧
   isResponding s = false ∧ hasResponded s = false) ∧
  (¬ Forall nonEmptyAnswer (answers s) ∨ (timeLeft s ≤ 0)%Z ∨
   isResponding s = true ∨ hasResponded s = true →
   handleSubmit p s = (s, [])) ∧
  (isResponding s = true →
   hasResponded (fst (step p s RespondFulfilled)) = true) ∧
  (hasResponded s = true →
   hasResponded (fst (run p s evs)) = true ∧ noRespond (snd (run p s evs))).
Proof.
  split; [|split; [|split]].
  - unfold handleSubmit.
    destruct (disabled s) eqn:Hd; simpl; [done|].
    destruct (allQuestionsAnswered s) eqn:Ha; simpl; [|done].
    intros _. apply disabled_false in Hd as (? & ? & ?).
    by apply allQuestionsAnswered_spec in Ha.
  - intros H. unfold handleSubmit.
    destruct (disabled s) eqn:Hd; simpl; [done|].
    destruct (allQuestionsAnswered s) eqn:Ha; simpl; [|done].
    apply disabled_false in Hd as (? & ? & ?).
    apply allQuestionsAnswered_spec in Ha.
    destruct H as [H|[H|[H|H]]]; [done|lia|congruence|congruence].
  - intros H. simpl. by rewrite H.
  - apply run_hasResponded.
Qed.

Lemma handleSubmit_guard_witness :
  let s := sampleState in
  let s1 := fst (step sampleProps s SubmitClick) in
  let s2 := fst (step sampleProps s1 RespondFulfilled) in
  let evs := [SubmitClick; Tick 1700000020000; SubmitClick] in
  (Forall nonEmptyAnswer (answers s) ∧ (0 < timeLeft s)%Z ∧
   isResponding s = false ∧ hasResponded s = false) ∧
  handleSubmit sampleProps s1 = (s1, []) ∧
  hasResponded s2 = true ∧
  hasResponded (fst (run sampleProps s2 evs)) = true ∧
  noRespond (snd (run sampleProps s2 evs)).
Proof.
  split; [|split; [|split]].
  - apply (handleSubmit_guard sampleProps sampleState []).
    vm_compute. discriminate.
  - apply (handleSubmit_guard sampleProps
             (fst (step sampleProps sampleState SubmitClick)) []).
    right; right; left. reflexivity.
  - apply (handleSubmit_guard sampleProps
             (fst (step sampleProps sampleState SubmitClick)) []).
    reflexivity.
  - apply (handleSubmit_guard sampleProps
             (fst (step sampleProps
                     (fst (step sampleProps sampleState SubmitClick))
                     RespondFulfilled))
             [SubmitClick; Tick 1700000020000; SubmitClick]).
    reflexivity.
Defined.

(** While [respond] is pending the form is disabled and the clicks on
    submit are ignored: only the ticks change the state, and they change
    [timeLeft] and the interval only. *)
Lemma run_while_pending (p : Props) (evs : list event) (s : State) :
  Forall (λ ev, isSettling ev = false) evs →
  isResponding s = true →
  let s' := fst (run p s evs) in
  isResponding s' = true ∧ hasResponded s' = hasResponded s ∧
  error s' = error s ∧ answers s' = answers s ∧ snd (run p s evs) = [].
Proof.
  revert s. induction evs as [|ev evs IH]; intros s Hevs Hr; simpl; [done|].
  apply Forall_cons in Hevs as [Hev Hevs].
  assert (Hd : disabled s = true) by (unfold disabled; by rewrite Hr).
  assert (Hstep : isResponding (fst (step p s ev)) = true ∧
                  hasResponded (fst (step p s ev)) = hasResponded s ∧
                  error (fst (step p s ev)) = error s ∧
                  answers (fst (step p s ev)) = answers s ∧
                  snd (step p s ev) = []).
  { destruct ev as [| |e|now|i a]; simpl in *; try discriminate.
    - unfold handleSubmit. by rewrite Hd.
    - by destruct (timerActive s).
    - by rewrite Hd. }
  destruct Hstep as (H1 & H2 & H3 & H4 & H5).
  specialize (IH (fst (step p s ev)) Hevs H1). simpl in IH.
  destruct (step p s ev) as [s1 out1]. simpl in *.
  destruct (run p s1 evs) as [s2 out2]. simpl in *.
  destruct IH as (I1 & I2 & I3 & I4 & I5).
  repeat split; try congruence. by rewrite H5, I5.
Qed.

(** C3, as stated: the countdown runs on while [respond] is pending.  The
    user submits with 45 seconds left, a tick finds the time over, then
    [respond] is rejected: the error is shown and the answers are all
    there, but a second click on submit makes no call. *)
Lemma retry_after_expiry_counterexample :
  let s2 := fst (run sampleProps sampleState
                   [SubmitClick; Tick 1700000060500;
                    RespondRejected (ErrorInstance "network error")]) in
  error s2 = Some "network error" ∧
  allQuestionsAnswered s2 = true ∧
  isResponding s2 = false ∧ hasResponded s2 = false ∧
  snd (step sampleProps s2 SubmitClick) = [].
Proof. by vm_compute. Qed.

(** C3, amended.  The user submits, and [respond] is rejected with [e]
    after any ticks, clicks and form actions in between.  The error is the
    message of [e] when [e] is an [Error] and the generic message when [e]
    carries none; the alert shows it; the component is neither submitting
    nor done, the answers are the same and all answered.  A second click on
    submit makes the same call again when the countdown, which ran on in
    between, is still above zero, and makes no call when it is not. *)
Theorem respondRejected_spec (p : Props) (s : State) (e : rejection)
    (evs : list event) :
  disabled s = false →
  allQuestionsAnswered s = true →
  is_Some (truthy (executionProcessId p)) →
  Forall (λ ev, isSettling ev = false) evs →
  let s1 := fst (run p (fst (step p s SubmitClick)) evs) in
  let s2 := fst (step p s1 (RespondRejected e)) in
  error s2
    = Some match e with
           | ErrorInstance message => message
           | OtherValue _ => "Failed to send response"
           end ∧
  alert s2 = (if String.eqb (errorMessage e) "" then None else error s2) ∧
  isResponding s2 = false ∧ hasResponded s2 = false ∧
  answers s2 = answers s ∧ allQuestionsAnswered s2 = true ∧
  timeLeft s2 = timeLeft s1 ∧
  ((0 < timeLeft s2)%Z →
   disabled s2 = false ∧
   (∃ response, snd (step p s2 SubmitClick) = [Respond (question_id p) response]) ∧
   snd (step p s2 SubmitClick) = snd (step p s SubmitClick)) ∧
  ((timeLeft s2 ≤ 0)%Z →
   disabled s2 = true ∧ step p s2 SubmitClick = (s2, [])).
Proof.
  intros Hd Ha [id Hid] Hevs s1 s2.
  assert (Hs0 : step p s SubmitClick
    = ({| isResponding := true; hasResponded := hasResponded s; error := None;
          answers := answers s; timeLeft := timeLeft s;
          timerActive := timerActive s |},
       [Respond (question_id p)
          {| execution_process_id := id; response_answers := answers s |}])).
  { simpl. unfold handleSubmit. by rewrite Hd, Ha, Hid. }
  apply disabled_false in Hd as (Hr & Hh & Ht).
  destruct (run_while_pending p evs (fst (step p s SubmitClick)) Hevs)
    as (P1 & P2 & P3 & P4 & _); [by rewrite Hs0|].
  fold s1 in P1, P2, P3, P4. rewrite Hs0 in P2, P3, P4. simpl in P2, P3, P4.
  assert (Hs2 : s2 = {| isResponding := false; hasResponded := hasResponded s1;
                        error := Some (errorMessage e); answers := answers s1;
                        timeLeft := timeLeft s1;
                        timerActive := timerActive s1 |}).
  { subst s2. simpl. by rewrite P1. }
  rewrite Hs0. rewrite Hs2. simpl. rewrite P2, P4, Hh.
  assert (Hall : allQuestionsAnswered
            {| isResponding := false; hasResponded := false;
               error := Some (errorMessage e); answers := answers s;
               timeLeft := timeLeft s1; timerActive := timerActive s1 |} = true)
    by done.
  split; [by destruct e|]. split; [done|].
  split; [done|]. split; [done|]. split; [done|]. split; [done|].
  split; [done|]. split.
  - intros Hpos.
    assert (Hd2 : disabled
              {| isResponding := false; hasResponded := false;
                 error := Some (errorMessage e); answers := answers s;
                 timeLeft := timeLeft s1; timerActive := timerActive s1 |} = false).
    { apply disabled_false. by simpl. }
    unfold handleSubmit. rewrite Hd2, Hall, Hid. simpl.
    split; [done|]. split; [by eexists|done].
  - intros Hzero.
    assert (Hd2 : disabled
              {| isResponding := false; hasResponded := false;
                 error := Some (errorMessage e); answers := answers s;
                 timeLeft := timeLeft s1; timerActive := timerActive s1 |} = true).
    { unfold disabled. simpl. by apply Z.leb_le. }
    unfold handleSubmit. by rewrite Hd2.
Qed.

Lemma respondRejected_spec_witness :
  let e := ErrorInstance "network error" in
  let evs := [Tick 1700000030000; SubmitClick] in
  let s1 := fst (run sampleProps (fst (step sampleProps sampleState SubmitClick)) evs) in
  let s2 := fst (step sampleProps s1 (RespondRejected e)) in
  timeLeft s2 = 30%Z ∧
  error s2 = Some "network error" ∧
  alert s2 = (if String.eqb (errorMessage e) "" then None else error s2) ∧
  isResponding s2 = false ∧ hasResponded s2 = false ∧
  answers s2 = answers sampleState ∧ allQuestionsAnswered s2 = true ∧
  timeLeft s2 = timeLeft s1 ∧
  ((0 < timeLeft s2)%Z →
   disabled s2 = false ∧
   (∃ response,
      snd (step sampleProps s2 SubmitClick)
      = [Respond (question_id sampleProps) response]) ∧
   snd (step sampleProps s2 SubmitClick)
   = snd (step sampleProps sampleState SubmitClick)) ∧
  ((timeLeft s2 ≤ 0)%Z →
   disabled s2 = true ∧ step sampleProps s2 SubmitClick = (s2, [])).
Proof.
  split; [by vm_compute|].
  apply (respondRejected_spec sampleProps sampleState
           (ErrorInstance "network error")
           [Tick 1700000030000; SubmitClick]).
  - reflexivity.
  - reflexivity.
  - eexists. reflexivity.
  - repeat constructor.
Defined.

(** ** The numbers of the countdown *)

Section Numbers.

Import JS Countdown.
Local Open Scope Q_scope.

Lemma pow2_pos (e : Z) : 0 < pow2 e.
Proof. apply Qpower_0_lt. reflexivity. Qed.

Lemma pow2_add (a b : Z) : pow2 (a + b) == pow2 a * pow2 b.
Proof. apply Qpower_plus. discriminate. Qed.

Lemma pow2_sub (a b : Z) : pow2 (a - b) == pow2 a / pow2 b.
Proof. apply Qpower_minus. discriminate. Qed.

Lemma pow2_Z (e : Z) : (0 <= e)%Z -> pow2 e == inject_Z (2 ^ e).
Proof. intros H. unfold pow2. now rewrite Zpower_Qpower. Qed.

Lemma pow2_lt_inv (a b : Z) : pow2 a < pow2 b -> (a < b)%Z.
Proof. intros H. apply (Qpower_lt_compat_l_inv 2); [exact H|reflexivity]. Qed.

(** A quotient of positive integers against a quotient of powers of two. *)
Lemma Qmake_ge_quotient (n A B : Z) (d : positive) :
  (0 < B)%Z -> (A * Zpos d <= n * B)%Z -> inject_Z A / inject_Z B <= n # d.
Proof.
  intros HB H. apply Qle_shift_div_r.
  - change 0 with (inject_Z 0). now rewrite <- Zlt_Qlt.
  - unfold Qle. simpl. rewrite ?Pos.mul_1_r, ?Z.mul_1_r. lia.
Qed.

Lemma Qmake_lt_quotient (n A B : Z) (d : positive) :
  (0 < B)%Z -> (n * B < A * Zpos d)%Z -> n # d < inject_Z A / inject_Z B.
Proof.
  intros HB H. apply Qlt_shift_div_l.
  - change 0 with (inject_Z 0). now rewrite <- Zlt_Qlt.
  - unfold Qlt. simpl. rewrite ?Pos.mul_1_r, ?Z.mul_1_r. lia.
Qed.

Lemma log2_quotient_lower (x : Q) :
  0 < x -> pow2 (Z.log2 (Qnum x) - Z.log2 (Zpos (Qden x)) - 1) <= x.
Proof.
  destruct x as [n d]. intros Hx. cbn [Qnum Qden].
  assert (Hn : (0 < n)%Z) by (unfold Qlt in Hx; simpl in Hx; lia).
  pose proof (Z.log2_nonneg n) as Ha.
  pose proof (Z.log2_nonneg (Zpos d)) as Hb.
  destruct (Z.log2_spec n Hn) as [Hn1 _].
  destruct (Z.log2_spec (Zpos d) eq_refl) as [_ Hd2].
  replace (Z.log2 n - Z.log2 (Z.pos d) - 1)%Z
    with (Z.log2 n - (Z.log2 (Z.pos d) + 1))%Z by ring.
  rewrite pow2_sub.
  rewrite (pow2_Z (Z.log2 n)), (pow2_Z (Z.log2 (Z.pos d) + 1)) by lia.
  apply Qmake_ge_quotient; [apply Z.pow_pos_nonneg; lia|].
  replace (Z.succ (Z.log2 (Z.pos d))) with (Z.log2 (Z.pos d) + 1)%Z in Hd2 by lia.
  nia.
Qed.

Lemma log2_quotient_upper (x : Q) :
  0 < x -> x < pow2 (Z.log2 (Qnum x) - Z.log2 (Zpos (Qden x)) + 1).
Proof.
  destruct x as [n d]. intros Hx. cbn [Qnum Qden].
  assert (Hn : (0 < n)%Z) by (unfold Qlt in Hx; simpl in Hx; lia).
  pose proof (Z.log2_nonneg n) as Ha.
  pose proof (Z.log2_nonneg (Zpos d)) as Hb.
  destruct (Z.log2_spec n Hn) as [_ Hn2].
  destruct (Z.log2_spec (Zpos d) eq_refl) as [Hd1 _].
  replace (Z.log2 n - Z.log2 (Z.pos d) + 1)%Z
    with (Z.log2 n + 1 - Z.log2 (Z.pos d))%Z by ring.
  rewrite pow2_sub.
  rewrite (pow2_Z (Z.log2 n + 1)), (pow2_Z (Z.log2 (Z.pos d))) by lia.
  apply Qmake_lt_quotient; [apply Z.pow_pos_nonneg; lia|].
  replace (Z.succ (Z.log2 n)) with (Z.log2 n + 1)%Z in Hn2 by lia.
  nia.
Qed.

(** [magnitude x] is the binary exponent of a positive [x]. *)
Lemma magnitude_spec (x : Q) :
  0 < x -> pow2 (magnitude x) <= x < pow2 (magnitude x + 1).
Proof.
  intros Hx. unfold magnitude.
  set (l := (Z.log2 (Qnum x) - Z.log2 (Z.pos (Qden x)))%Z).
  destruct (Qle_bool (pow2 l) x) eqn:Hl.
  - apply Qle_bool_iff in Hl. split; [exact Hl|].
    now apply log2_quotient_upper.
  - split; [now apply log2_quotient_lower|].
    replace (l - 1 + 1)%Z with l by ring.
    apply Qnot_le_lt. intros H. apply Qle_bool_iff in H. congruence.
Qed.

(** [round_half_even] is within one half of its argument, and exact on
    integers. *)
Lemma round_half_even_err (s : Q) :
  s - (1 # 2) <= inject_Z (round_half_even s) <= s + (1 # 2).
Proof.
  unfold round_half_even.
  pose proof (Qfloor_le s) as Hlo. pose proof (Qlt_floor s) as Hhi.
  rewrite inject_Z_plus in Hhi. change (inject_Z 1) with 1 in Hhi.
  destruct (Qcompare_spec (s - inject_Z (Qfloor s)) (1 # 2)) as [H|H|H].
  - destruct (Z.even (Qfloor s)); rewrite ?inject_Z_plus;
      change (inject_Z 1) with 1; lra.
  - lra.
  - rewrite inject_Z_plus. change (inject_Z 1) with 1. lra.
Qed.

Lemma round_half_even_Z (s : Q) (k : Z) :
  s == inject_Z k -> round_half_even s = k.
Proof.
  intros H. unfold round_half_even.
  assert (Hf : Qfloor s = k) by (rewrite H; apply Qfloor_Z).
  rewrite Hf.
  destruct (Qcompare_spec (s - inject_Z k) (1 # 2)) as [Hc|Hc|Hc];
    [rewrite H in Hc; lra|reflexivity|rewrite H in Hc; lra].
Qed.

Lemma double_round_pos_err (x : Q) :
  0 < x ->
  x - x * ulp_half <= double_round_pos x <= x + x * ulp_half.
Proof.
  intros Hx. unfold double_round_pos.
  destruct (magnitude_spec x Hx) as [Hlo _].
  set (e := (magnitude x - 52)%Z).
  pose proof (pow2_pos e) as He.
  pose proof (round_half_even_err (x / pow2 e)) as [H1 H2].
  set (m := inject_Z (round_half_even (x / pow2 e))) in *.
  assert (Hx' : x == x / pow2 e * pow2 e) by (field; lra).
  assert (Hu : pow2 e * (1 # 2) <= x * ulp_half).
  { unfold ulp_half.
    assert (Hm : pow2 (magnitude x) * pow2 (-53) == pow2 e * (1 # 2)).
    { rewrite <- pow2_add. unfold e.
      replace (magnitude x + -53)%Z with (magnitude x - 52 + -1)%Z by ring.
      rewrite pow2_add. reflexivity. }
    rewrite <- Hm. apply Qmult_le_compat_r; [exact Hlo|].
    apply Qlt_le_weak, pow2_pos. }
  assert (Hm1 : (x / pow2 e - (1 # 2)) * pow2 e <= m * pow2 e)
    by (apply Qmult_le_compat_r; [exact H1|lra]).
  assert (Hm2 : m * pow2 e <= (x / pow2 e + (1 # 2)) * pow2 e)
    by (apply Qmult_le_compat_r; [exact H2|lra]).
  set (y := x / pow2 e) in *.
  split; lra.
Qed.

Lemma double_round_pos_Z (x : Q) (z : Z) :
  (0 < z < 2 ^ 53)%Z -> x == inject_Z z -> double_round_pos x == inject_Z z.
Proof.
  intros [Hz1 Hz2] Hxz.
  assert (Hx : 0 < x) by (rewrite Hxz; change 0 with (inject_Z 0); now rewrite <- Zlt_Qlt).
  destruct (magnitude_spec x Hx) as [Hlo _].
  assert (Hl : (magnitude x < 53)%Z).
  { apply pow2_lt_inv. apply Qle_lt_trans with x; [exact Hlo|].
    rewrite Hxz, pow2_Z by lia. now rewrite <- Zlt_Qlt. }
  unfold double_round_pos.
  set (e := (magnitude x - 52)%Z).
  assert (Hs : x / pow2 e == inject_Z (z * 2 ^ (- e))).
  { rewrite inject_Z_mult, <- pow2_Z by lia. rewrite Hxz.
    unfold pow2. rewrite Qpower_opp. reflexivity. }
  rewrite (round_half_even_Z _ _ Hs).
  rewrite inject_Z_mult, <- pow2_Z by lia.
  rewrite <- Qmult_assoc, <- pow2_add.
  replace (- e + e)%Z with 0%Z by ring. change (pow2 0) with 1. ring.
Qed.

Lemma double_round_err (x : Q) :
  x - Qabs x * ulp_half <= double_round x <= x + Qabs x * ulp_half.
Proof.
  unfold double_round.
  destruct (Qcompare_spec x 0) as [H|H|H].
  - rewrite H. change (Qabs 0) with 0. lra.
  - assert (Hx : 0 < - x) by lra.
    destruct (double_round_pos_err (- x) Hx) as [H1 H2].
    rewrite (Qabs_neg x) by lra. lra.
  - destruct (double_round_pos_err x H) as [H1 H2].
    rewrite (Qabs_pos x) by lra. lra.
Qed.

(** Integers below [2^53] in magnitude are numbers: rounding keeps them. *)
Lemma double_round_Z (x : Q) (z : Z) :
  (Z.abs z < 2 ^ 53)%Z -> x == inject_Z z -> double_round x == inject_Z z.
Proof.
  intros Hz Hxz. unfold double_round.
  destruct (Qcompare_spec x 0) as [H|H|H].
  - rewrite <- Hxz, H. reflexivity.
  - assert (Hz' : (z < 0)%Z).
    { rewrite Hxz in H. change 0 with (inject_Z 0) in H. now rewrite <- Zlt_Qlt in H. }
    rewrite (double_round_pos_Z (- x) (- z)).
    + rewrite inject_Z_opp. ring.
    + lia.
    + rewrite Hxz, inject_Z_opp. reflexivity.
  - assert (Hz' : (0 < z)%Z).
    { rewrite Hxz in H. change 0 with (inject_Z 0) in H. now rewrite <- Zlt_Qlt in H. }
    apply double_round_pos_Z; [lia|exact Hxz].
Qed.

Lemma Qfloor_unique (q : Q) (k : Z) :
  inject_Z k <= q -> q < inject_Z (k + 1) -> Qfloor q = k.
Proof.
  intros H1 H2.
  pose proof (Qfloor_le q) as H3. pose proof (Qlt_floor q) as H4.
  assert (H5 : inject_Z k < inject_Z (Qfloor q + 1)) by lra.
  assert (H6 : inject_Z (Qfloor q) < inject_Z (k + 1)) by lra.
  rewrite <- Zlt_Qlt in H5, H6. lia.
Qed.

Lemma ulp_half_value : ulp_half == 1 # 9007199254740992.
Proof. reflexivity. Qed.

(** [Math.floor(r / 1000)] for an integer [r] below [2^53] in magnitude is
    the integer quotient rounded down: the rounding of the division does
    not reach the next integer. *)
Lemma floor_div_1000 (y : Q) (r : Z) :
  (Z.abs r < 2 ^ 53)%Z -> y == inject_Z r ->
  Math_floor (div y (inject_Z 1000)) = (r / 1000)%Z.
Proof.
  intros Hr Hy. unfold Math_floor, div.
  pose proof (Z.div_mod r 1000 ltac:(lia)) as Hdm.
  pose proof (Z.mod_pos_bound r 1000 ltac:(lia)) as Hj.
  set (k := (r / 1000)%Z) in *. set (j := (r mod 1000)%Z) in *.
  assert (Hx : y / inject_Z 1000 == inject_Z k + inject_Z j / inject_Z 1000).
  { rewrite Hy, Hdm, inject_Z_plus, inject_Z_mult. field. }
  destruct (Z.eq_dec j 0%Z) as [Hj0|Hj0].
  - assert (Hk : y / inject_Z 1000 == inject_Z k).
    { rewrite Hx, Hj0. change (inject_Z 0) with 0. field. }
    rewrite (double_round_Z _ k); [apply Qfloor_Z| |exact Hk].
    assert (Z.abs k <= Z.abs r)%Z by lia. lia.
  - pose proof (double_round_err (y / inject_Z 1000)) as [H1 H2].
    assert (Hj1 : inject_Z 1 <= inject_Z j) by (rewrite <- Zle_Qle; lia).
    assert (Hj2 : inject_Z j <= inject_Z 999) by (rewrite <- Zle_Qle; lia).
    assert (Hr1 : inject_Z (- (2 ^ 53 - 1)) <= inject_Z r) by (rewrite <- Zle_Qle; lia).
    assert (Hr2 : inject_Z r <= inject_Z (2 ^ 53 - 1)) by (rewrite <- Zle_Qle; lia).
    assert (Hyr : y / inject_Z 1000 == inject_Z r * (1 # 1000)) by (rewrite Hy; field).
    assert (Ha : Qabs (y / inject_Z 1000) <= 9007199254740991 # 1000).
    { apply Qabs_Qle_condition. rewrite Hyr.
      set (q := inject_Z r) in *.
      change (inject_Z (- (2 ^ 53 - 1))) with (-9007199254740991 # 1) in Hr1.
      change (inject_Z (2 ^ 53 - 1)) with (9007199254740991 # 1) in Hr2.
      split; lra. }
    rewrite ulp_half_value in H1, H2.
    change (inject_Z 1) with 1 in Hj1. change (inject_Z 999) with (999 # 1) in Hj2.
    assert (Hjq : inject_Z j / inject_Z 1000 == inject_Z j * (1 # 1000)) by (field).
    rewrite Hjq in Hx.
    set (x := y / inject_Z 1000) in *. set (a := Qabs x) in *.
    set (jq := inject_Z j) in *. set (kq := inject_Z k) in *.
    apply Qfloor_unique.
    + fold kq. lra.
    + rewrite inject_Z_plus. fold kq. change (inject_Z 1) with 1. lra.
Qed.

(** [totalSeconds] and the value of [timeLeft] are the whole seconds of the
    two differences, rounded down, when the time values are less than
    [2^53] milliseconds apart. *)
Lemma totalSeconds_value (requestedAt timeoutAt : Z) :
  (Z.abs (timeoutAt - requestedAt) < 2 ^ 53)%Z ->
  totalSeconds requestedAt timeoutAt = Z.max 1 ((timeoutAt - requestedAt) / 1000).
Proof.
  intros H. unfold totalSeconds, Math_max. f_equal.
  apply floor_div_1000; [exact H|].
  unfold sub. apply double_round_Z; [exact H|].
  unfold Z.sub. rewrite inject_Z_plus, inject_Z_opp. reflexivity.
Qed.

Lemma remainingSeconds_value (timeoutAt now : Z) :
  (Z.abs (timeoutAt - now) < 2 ^ 53)%Z ->
  remainingSeconds timeoutAt now = Z.max 0 ((timeoutAt - now) / 1000).
Proof.
  intros H. unfold remainingSeconds, Math_max. f_equal.
  apply floor_div_1000; [exact H|].
  unfold sub. apply double_round_Z; [exact H|].
  unfold Z.sub. rewrite inject_Z_plus, inject_Z_opp. reflexivity.
Qed.


(** The two roundings keep the product within the factors [(1 - u)^2] and
    [(1 + u)^2] of the quotient [100 t / T], for [u = 2^-53]. *)
Lemma ratio100_bounds (t T : Z) :
  (0 <= t)%Z -> (1 <= T)%Z ->
  let w := ratio100 t T * inject_Z T in
  (100 # 1) * (1 - ulp_half) * (1 - ulp_half) * inject_Z t <= w /\
  w <= (100 # 1) * (1 + ulp_half) * (1 + ulp_half) * inject_Z t.
Proof.
  intros Ht HT w. subst w. unfold ratio100, mul, div.
  assert (HTq : 0 < inject_Z T) by (change 0 with (inject_Z 0); rewrite <- Zlt_Qlt; lia).
  assert (Htq : 0 <= inject_Z t) by (change 0 with (inject_Z 0); rewrite <- Zle_Qle; lia).
  set (x := inject_Z t / inject_Z T).
  assert (Hx : x * inject_Z T == inject_Z t) by (unfold x; field; lra).
  assert (Hx0 : 0 <= x).
  { unfold x. apply Qle_shift_div_l; [exact HTq|]. lra. }
  pose proof (double_round_err x) as [Hq1 Hq2].
  rewrite (Qabs_pos x Hx0) in Hq1, Hq2.
  set (q := double_round x) in *.
  rewrite ulp_half_value in *.
  assert (Hq0 : 0 <= q * inject_Z 100) by (change (inject_Z 100) with (100 # 1); lra).
  pose proof (double_round_err (q * inject_Z 100)) as [Hy1 Hy2].
  rewrite (Qabs_pos _ Hq0), ulp_half_value in Hy1, Hy2.
  set (y := double_round (q * inject_Z 100)) in *.
  change (inject_Z 100) with (100 # 1) in *.
  assert (Hlo : (100 # 1) * (1 - (1 # 9007199254740992)) * (1 - (1 # 9007199254740992)) * x <= y) by lra.
  assert (Hhi : y <= (100 # 1) * (1 + (1 # 9007199254740992)) * (1 + (1 # 9007199254740992)) * x) by lra.
  apply (Qmult_le_compat_r _ _ (inject_Z T)) in Hlo; [|lra].
  apply (Qmult_le_compat_r _ _ (inject_Z T)) in Hhi; [|lra].
  rewrite <- Qmult_assoc, Hx in Hlo, Hhi.
  split; assumption.
Qed.

(** Below a half-integer, [Math.round] stays below. *)
Lemma Math_round_ratio100_le (t T k : Z) :
  (0 <= t)%Z -> (1 <= T < 2 ^ 44)%Z -> (0 <= k <= 100)%Z ->
  (200 * t < (2 * k + 1) * T)%Z ->
  (Math_round (ratio100 t T) <= k)%Z.
Proof.
  intros Ht HT Hk H.
  destruct (ratio100_bounds t T Ht ltac:(lia)) as [_ Hhi].
  rewrite ulp_half_value in Hhi.
  set (y := ratio100 t T) in *.
  assert (HTq : 0 < inject_Z T) by (change 0 with (inject_Z 0); rewrite <- Zlt_Qlt; lia).
  assert (HN : inject_Z (200 * t) + 1 <= inject_Z ((2 * k + 1) * T)).
  { change 1 with (inject_Z 1). rewrite <- inject_Z_plus, <- Zle_Qle. lia. }
  assert (HNmax : inject_Z ((2 * k + 1) * T) <= inject_Z (2 ^ 52 - 1)).
  { rewrite <- Zle_Qle. nia. }
  rewrite inject_Z_mult in HN.
  change (inject_Z 200) with (200 # 1) in HN.
  change (inject_Z (2 ^ 52 - 1)) with (4503599627370495 # 1) in HNmax.
  assert (Hw : 2 * (y * inject_Z T) < inject_Z ((2 * k + 1) * T)).
  { set (N := inject_Z ((2 * k + 1) * T)) in *. set (tq := inject_Z t) in *.
    set (w := y * inject_Z T) in *. lra. }
  assert (Hy : y + (1 # 2) < inject_Z (k + 1)).
  { rewrite inject_Z_mult, inject_Z_plus, inject_Z_mult in Hw.
    change (inject_Z 2) with 2 in Hw. change (inject_Z 1) with 1 in Hw.
    assert (Hw' : (2 * y) * inject_Z T < (2 * inject_Z k + 1) * inject_Z T) by lra.
    apply Qmult_lt_r in Hw'; [|exact HTq].
    rewrite inject_Z_plus. change (inject_Z 1) with 1. lra. }
  unfold Math_round.
  pose proof (Qfloor_le (y + (1 # 2))) as Hf.
  assert (Hlt : inject_Z (Qfloor (y + (1 # 2))) < inject_Z (k + 1)) by lra.
  rewrite <- Zlt_Qlt in Hlt. lia.
Qed.

(** Above a half-integer, [Math.round] stays above. *)
Lemma Math_round_ratio100_ge (t T k : Z) :
  (0 <= t)%Z -> (1 <= T < 2 ^ 44)%Z -> (0 <= k <= 100)%Z ->
  ((2 * k - 1) * T < 200 * t)%Z ->
  (k <= Math_round (ratio100 t T))%Z.
Proof.
  intros Ht HT Hk H.
  destruct (ratio100_bounds t T Ht ltac:(lia)) as [Hlo _].
  rewrite ulp_half_value in Hlo.
  set (y := ratio100 t T) in *.
  assert (HTq : 0 < inject_Z T) by (change 0 with (inject_Z 0); rewrite <- Zlt_Qlt; lia).
  assert (HN : inject_Z ((2 * k - 1) * T) + 1 <= inject_Z (200 * t)).
  { change 1 with (inject_Z 1). rewrite <- inject_Z_plus, <- Zle_Qle. lia. }
  assert (HNmax : inject_Z ((2 * k - 1) * T) <= inject_Z (2 ^ 52 - 1)).
  { rewrite <- Zle_Qle. nia. }
  rewrite (inject_Z_mult 200) in HN.
  change (inject_Z 200) with (200 # 1) in HN.
  change (inject_Z (2 ^ 52 - 1)) with (4503599627370495 # 1) in HNmax.
  assert (Hw : inject_Z ((2 * k - 1) * T) <= 2 * (y * inject_Z T)).
  { set (N := inject_Z ((2 * k - 1) * T)) in *. set (tq := inject_Z t) in *.
    set (w := y * inject_Z T) in *. lra. }
  assert (Hy : inject_Z k <= y + (1 # 2)).
  { unfold Z.sub in Hw.
    rewrite inject_Z_mult, inject_Z_plus, inject_Z_mult in Hw.
    change (inject_Z 2) with 2 in Hw. change (inject_Z (- (1))) with (- (1)) in Hw.
    assert (Hw' : (2 * inject_Z k + - (1)) * inject_Z T <= (2 * y) * inject_Z T) by lra.
    apply Qmult_le_r in Hw'; [|exact HTq]. lra. }
  unfold Math_round.
  apply Qfloor_resp_le in Hy. now rewrite Qfloor_Z in Hy.
Qed.

Lemma percent_ratio100 (t T : Z) :
  percent t T = Z.max 0 (Z.min 100 (Math_round (ratio100 t T))).
Proof. reflexivity. Qed.

(** [percent] is the quotient [100 timeLeft / totalSeconds], cut at 100 and
    rounded to a nearest integer. *)
Lemma percent_nearest (t T : Z) :
  (0 <= t)%Z -> (1 <= T < 2 ^ 44)%Z ->
  (0 <= percent t T <= 100)%Z /\
  (2 * Z.abs (percent t T * T - Z.min (100 * t) (100 * T)) <= T)%Z.
Proof.
  intros Ht HT. rewrite percent_ratio100.
  set (P := Math_round (ratio100 t T)).
  split; [lia|].
  set (k0 := ((200 * t + T) / (2 * T))%Z).
  assert (Hk0 : (2 * T * k0 <= 200 * t + T < 2 * T * (k0 + 1))%Z).
  { pose proof (Z.div_mod (200 * t + T) (2 * T) ltac:(lia)) as Hdm.
    pose proof (Z.mod_pos_bound (200 * t + T) (2 * T) ltac:(lia)) as Hm.
    fold k0 in Hdm. lia. }
  assert (Hk0pos : (0 <= k0)%Z) by (apply Z.div_pos; lia).
  destruct (Z_le_gt_dec 101%Z k0) as [Hbig|Hsmall].
  - assert (HP : (100 <= P)%Z) by (apply Math_round_ratio100_ge; nia).
    assert (HtT : (T <= t)%Z) by nia.
    replace (Z.max 0 (Z.min 100 P)) with 100%Z by lia. lia.
  - assert (Hup : (P <= k0)%Z) by (apply Math_round_ratio100_le; nia).
    destruct (Z.eq_dec (200 * t)%Z ((2 * k0 - 1) * T)%Z) as [Htie|Hnotie].
    + assert (Hk1 : (1 <= k0)%Z) by nia.
      assert (Hlow : (k0 - 1 <= P)%Z) by (apply Math_round_ratio100_ge; nia).
      assert (HtT : (t < T)%Z) by nia.
      replace (Z.max 0 (Z.min 100 P)) with P by lia.
      replace (Z.min (100 * t) (100 * T)) with (100 * t)%Z by lia.
      assert (HPk : P = k0 \/ P = (k0 - 1)%Z) by lia.
      destruct HPk as [HPk|HPk]; rewrite HPk; nia.
    + assert (Hlow : (k0 <= P)%Z) by (apply Math_round_ratio100_ge; nia).
      assert (HPk : P = k0) by lia. rewrite HPk.
      assert (Hk100 : (k0 <= 100)%Z) by lia.
      replace (Z.max 0 (Z.min 100 k0)) with k0 by lia.
      destruct (Z_le_gt_dec T t) as [HtT|HtT].
      * replace (Z.min (100 * t) (100 * T)) with (100 * T)%Z by lia. nia.
      * replace (Z.min (100 * t) (100 * T)) with (100 * t)%Z by lia. nia.
Qed.

End Numbers.

(** ** The countdown *)

Import JS Countdown.

(** [JS.div] and [JS.mul] give the values of the binary64 division and
    multiplication, here on quotients that are not representable and on a
    product that falls just below a tie. *)
Example div_29_200_binary64 :
  (div 29 200 ==
   binary64_value (binary64_div (binary64_of_Z 29) (binary64_of_Z 200)))%Q.
Proof. by vm_compute. Qed.

Example ratio100_29_200_binary64 :
  (ratio100 29 200 ==
   binary64_value
     (binary64_mul (binary64_div (binary64_of_Z 29) (binary64_of_Z 200))
                   (binary64_of_Z 100)))%Q.
Proof. by vm_compute. Qed.

Example div_1_3_binary64 :
  (div 1 3 ==
   binary64_value (binary64_div (binary64_of_Z 1) (binary64_of_Z 3)))%Q.
Proof. by vm_compute. Qed.

Example ratio100_59_7200_binary64 :
  (ratio100 59 7200 ==
   binary64_value
     (binary64_mul (binary64_div (binary64_of_Z 59) (binary64_of_Z 7200))
                   (binary64_of_Z 100)))%Q.
Proof. by vm_compute. Qed.

(** At the tie 14.5 the product is rounded below it, and [percent] is 14. *)
Example percent_29_200 : percent 29 200 = 14%Z.
Proof. by vm_compute. Qed.

(** C9.  For time values less than [2^53] milliseconds apart: the total is
    the whole seconds from the request to the timeout, at least 1; the
    remaining time, which the component keeps in [timeLeft] from its first
    render and from every tick, is the whole seconds from now to the
    timeout, at least 0; [percent] lies between 0 and 100 and is a nearest
    integer of [100 * remaining / total] cut at 100.  With the timeout 60
    seconds after a request at [T0], the total is 60, and the remaining
    time and the percentage are 0 and 0 one second after the timeout, and
    30 and 50 thirty seconds before it. *)
Theorem countdown_spec (requestedAt timeoutAt now : Z) :
  (Z.abs (timeoutAt - requestedAt) < 2 ^ 53)%Z →
  (Z.abs (timeoutAt - now) < 2 ^ 53)%Z →
  let total := totalSeconds requestedAt timeoutAt in
  let remaining := remainingSeconds timeoutAt now in
  total = Z.max 1 ((timeoutAt - requestedAt) / 1000) ∧
  remaining = Z.max 0 ((timeoutAt - now) / 1000) ∧
  (∀ p s,
     Collector.timeLeft (Collector.initialState p now)
       = remainingSeconds (Collector.timeout_at p) now ∧
     Collector.timeLeft (Collector.tick p now s)
       = remainingSeconds (Collector.timeout_at p) now) ∧
  (0 ≤ percent remaining total ≤ 100)%Z ∧
  (2 * Z.abs (percent remaining total * total
              - Z.min (100 * remaining) (100 * total)) ≤ total)%Z ∧
  (∀ T0,
     totalSeconds T0 (T0 + 60000) = 60%Z ∧
     remainingSeconds (T0 + 60000) (T0 + 61000) = 0%Z ∧
     percent 0 60 = 0%Z ∧
     remainingSeconds (T0 + 60000) (T0 + 30000) = 30%Z ∧
     percent 30 60 = 50%Z).
Proof.
  intros Hreq Hnow total remaining.
  assert (Htotal : total = Z.max 1 ((timeoutAt - requestedAt) / 1000))
    by by apply totalSeconds_value.
  assert (Hrem : remaining = Z.max 0 ((timeoutAt - now) / 1000))
    by by apply remainingSeconds_value.
  assert (Hquot : ((timeoutAt - requestedAt) / 1000 < 2 ^ 44)%Z).
  { apply Z.div_lt_upper_bound; lia. }
  destruct (percent_nearest remaining total) as [Hrange Hnear]; [lia|lia|].
  split; [done|]. split; [done|]. split; [done|].
  split; [done|]. split; [done|].
  intros T0. repeat split.
  - rewrite totalSeconds_value;
      replace (T0 + 60000 - T0)%Z with 60000%Z by ring; done.
  - rewrite remainingSeconds_value;
      replace (T0 + 60000 - (T0 + 61000))%Z with (-1000)%Z by ring; done.
  - rewrite remainingSeconds_value;
      replace (T0 + 60000 - (T0 + 30000))%Z with 30000%Z by ring; done.
Qed.

Lemma countdown_spec_witness :
  let requestedAt := 1700000000000%Z in
  let timeoutAt := 1700000060000%Z in
  let now := 1700000030000%Z in
  let total := totalSeconds requestedAt timeoutAt in
  let remaining := remainingSeconds timeoutAt now in
  total = Z.max 1 ((timeoutAt - requestedAt) / 1000) ∧
  remaining = Z.max 0 ((timeoutAt - now) / 1000) ∧
  (∀ p s,
     Collector.timeLeft (Collector.initialState p now)
       = remainingSeconds (Collector.timeout_at p) now ∧
     Collector.timeLeft (Collector.tick p now s)
       = remainingSeconds (Collector.timeout_at p) now) ∧
  (0 ≤ percent remaining total ≤ 100)%Z ∧
  (2 * Z.abs (percent remaining total * total
              - Z.min (100 * remaining) (100 * total)) ≤ total)%Z ∧
  (∀ T0,
     totalSeconds T0 (T0 + 60000) = 60%Z ∧
     remainingSeconds (T0 + 60000) (T0 + 61000) = 0%Z ∧
     percent 0 60 = 0%Z ∧
     remainingSeconds (T0 + 60000) (T0 + 30000) = 30%Z ∧
     percent 30 60 = 50%Z).
Proof.
  apply (countdown_spec 1700000000000 1700000060000 1700000030000).
  - vm_compute. reflexivity.
  - vm_compute. reflexivity.
Defined.

(** * Further properties of the component *)

(** ** Invariants of the event loop *)

(** A property of states that every event keeps, with a property of the
    calls that every event made from such a state has, holds along every
    sequence of events. *)
Lemma run_invariant (p : Props) (I : State → Prop) (O : effect → Prop) :
  (∀ s ev, I s → I (fst (step p s ev)) ∧ Forall O (snd (step p s ev))) →
  ∀ evs s, I s → I (fst (run p s evs)) ∧ Forall O (snd (run p s evs)).
Proof.
  intros Hstep. induction evs as [|ev evs IH]; intros s Hs; simpl.
  - by split; [|constructor].
  - destruct (Hstep s ev Hs) as [H1 Hout1].
    destruct (step p s ev) as [s1 out1]. simpl in *.
    destruct (IH s1 H1) as [H2 Hout2].
    destruct (run p s1 evs) as [s2 out2]. simpl in *.
    split; [done|]. by apply Forall_app.
Qed.

(** X1.  Without an execution process id (absent, or the empty string) no
    sequence of events makes the component call [respond]; a click on
    submit that passes the other guards sets the error
    "Missing executionProcessId" and leaves the component idle. *)
Theorem missing_process_id_never_responds (p : Props) (s : State)
    (evs : list event) :
  truthy (executionProcessId p) = None →
  noRespond (snd (run p s evs)) ∧
  (disabled s = false → allQuestionsAnswered s = true →
   error (fst (handleSubmit p s)) = Some "Missing executionProcessId" ∧
   isResponding (fst (handleSubmit p s)) = false ∧
   answers (fst (handleSubmit p s)) = answers s).
Proof.
  intros Hid. split.
  - apply (run_invariant p (λ _, True) (λ f, isRespond f = false)); [|done].
    intros s' ev _. split; [done|].
    destruct ev as [| |e|now|i a]; simpl.
    + unfold handleSubmit. rewrite Hid.
      destruct (disabled s' || negb (allQuestionsAnswered s')); constructor.
    + destruct (isResponding s'); constructor.
    + destruct (isResponding s'); by repeat constructor.
    + destruct (timerActive s'); constructor.
    + destruct (disabled s'); [constructor|].
      destruct (questions p !! i), (answers s' !! i); try constructor.
      destruct (formAnswer _ _ _); constructor.
  - intros Hd Ha. unfold handleSubmit. rewrite Hd, Ha, Hid. simpl.
    apply disabled_false in Hd as (Hr & _ & _). by rewrite Hr.
Qed.

Lemma missing_process_id_never_responds_witness :
  let p := {| questions := questions sampleProps;
              question_id := "question-1";
              requested_at := 1700000000000;
              timeout_at := 1700000060000;
              executionProcessId := Some "" |} in
  let evs := [SubmitClick; Tick 1700000020000; SubmitClick] in
  noRespond (snd (run p sampleState evs)) ∧
  (disabled sampleState = false → allQuestionsAnswered sampleState = true →
   error (fst (handleSubmit p sampleState)) = Some "Missing executionProcessId" ∧
   isResponding (fst (handleSubmit p sampleState)) = false ∧
   answers (fst (handleSubmit p sampleState)) = answers sampleState).
Proof.
  apply (missing_process_id_never_responds
           {| questions := questions sampleProps;
              question_id := "question-1";
              requested_at := 1700000000000;
              timeout_at := 1700000060000;
              executionProcessId := Some "" |}
           sampleState [SubmitClick; Tick 1700000020000; SubmitClick]).
  reflexivity.
Defined.

(** X2.  When a tick finds no time left, the countdown is over for good:
    whatever happens next, [timeLeft] stays 0, the form stays disabled, the
    answers stay as they were and [respond] is not called. *)
Theorem expiry_is_permanent (p : Props) (s : State) (now : Z)
    (evs : list event) :
  timerActive s = true →
  remainingSeconds (timeout_at p) now = 0%Z →
  let s0 := fst (step p s (Tick now)) in
  timeLeft (fst (run p s0 evs)) = 0%Z ∧
  timerActive (fst (run p s0 evs)) = false ∧
  disabled (fst (run p s0 evs)) = true ∧
  answers (fst (run p s0 evs)) = answers s ∧
  noRespond (snd (run p s0 evs)).
Proof.
  intros Hactive Hzero s0.
  assert (H0 : timeLeft s0 = 0%Z ∧ timerActive s0 = false ∧ answers s0 = answers s).
  { subst s0. simpl. rewrite Hactive. simpl. by rewrite Hzero. }
  destruct (run_invariant p
    (λ s', timeLeft s' = 0%Z ∧ timerActive s' = false ∧ answers s' = answers s)
    (λ f, isRespond f = false)) with (evs := evs) (s := s0)
    as [(Ht & Ha & Hans) Hout]; [|done|].
  - intros s' ev (Ht & Ha & Hans).
    assert (Hd : disabled s' = true).
    { unfold disabled. rewrite Ht. simpl. by rewrite orb_true_r. }
    destruct ev as [| |e|now'|i a]; simpl.
    + unfold handleSubmit. rewrite Hd. simpl. by split; [|constructor].
    + destruct (isResponding s'); simpl; by split; [|constructor].
    + destruct (isResponding s'); simpl; [|by split; [|constructor]].
      split; [done|]. by repeat constructor.
    + rewrite Ha. simpl. by split; [|constructor].
    + rewrite Hd. simpl. by split; [|constructor].
  - repeat split; try done.
    unfold disabled. rewrite Ht. simpl. by rewrite orb_true_r.
Qed.

Lemma expiry_is_permanent_witness :
  let s0 := fst (step sampleProps sampleState (Tick 1700000060500)) in
  let evs := [SubmitClick; FormEvent 0 (OtherToggle true); Tick 1700000010000;
              SubmitClick] in
  timeLeft (fst (run sampleProps s0 evs)) = 0%Z ∧
  timerActive (fst (run sampleProps s0 evs)) = false ∧
  disabled (fst (run sampleProps s0 evs)) = true ∧
  answers (fst (run sampleProps s0 evs)) = answers sampleState ∧
  noRespond (snd (run sampleProps s0 evs)).
Proof.
  apply (expiry_is_permanent sampleProps sampleState 1700000060500
           [SubmitClick; FormEvent 0 (OtherToggle true); Tick 1700000010000;
            SubmitClick]).
  - reflexivity.
  - by vm_compute.
Defined.

(** X3.  After a fulfilled [respond] the component is frozen: whatever
    happens next, the answers and [timeLeft] keep their values (the
    countdown does not jump to zero), no tick is taken and the form stays
    disabled. *)
Theorem success_freezes_component (p : Props) (s : State) (evs : list event) :
  isResponding s = true →
  let s1 := fst (step p s RespondFulfilled) in
  answers (fst (run p s1 evs)) = answers s ∧
  timeLeft (fst (run p s1 evs)) = timeLeft s ∧
  timerActive (fst (run p s1 evs)) = false ∧
  hasResponded (fst (run p s1 evs)) = true ∧
  disabled (fst (run p s1 evs)) = true.
Proof.
  intros Hr s1.
  destruct (run_invariant p
    (λ s', hasResponded s' = true ∧ timerActive s' = false ∧
           answers s' = answers s ∧ timeLeft s' = timeLeft s)
    (λ _, True)) with (evs := evs) (s := s1)
    as [(Hh & Ha & Hans & Ht) _].
  - intros s' ev (Hh & Ha & Hans & Ht).
    assert (Hd : disabled s' = true).
    { unfold disabled. rewrite Hh. by rewrite orb_true_r. }
    split; [|by apply Forall_forall].
    destruct ev as [| |e|now'|i a]; simpl.
    + unfold handleSubmit. by rewrite Hd.
    + by destruct (isResponding s').
    + by destruct (isResponding s').
    + by rewrite Ha.
    + by rewrite Hd.
  - subst s1. simpl. by rewrite Hr.
  - repeat split; try done.
    unfold disabled. rewrite Hh. by rewrite orb_true_r.
Qed.

Lemma success_freezes_component_witness :
  let s := fst (step sampleProps sampleState SubmitClick) in
  let s1 := fst (step sampleProps s RespondFulfilled) in
  let evs := [Tick 1700000061000; FormEvent 1 (OptionChange 1 false);
              SubmitClick] in
  answers (fst (run sampleProps s1 evs)) = answers s ∧
  timeLeft (fst (run sampleProps s1 evs)) = timeLeft s ∧
  timerActive (fst (run sampleProps s1 evs)) = false ∧
  hasResponded (fst (run sampleProps s1 evs)) = true ∧
  disabled (fst (run sampleProps s1 evs)) = true.
Proof.
  apply (success_freezes_component sampleProps
           (fst (step sampleProps sampleState SubmitClick))
           [Tick 1700000061000; FormEvent 1 (OptionChange 1 false);
            SubmitClick]).
  reflexivity.
Defined.

(** X4.  From the first render on, [respond] is called at most once more
    than it has been rejected: a new call needs the rejection of the one
    before, and there is at most one call when nothing is rejected. *)
Lemma countRespond_app (out1 out2 : list effect) :
  countRespond (out1 ++ out2) = (countRespond out1 + countRespond out2)%nat.
Proof. unfold countRespond. by rewrite filter_app, length_app. Qed.

Lemma step_countRespond (p : Props) (s : State) (ev : event) :
  let idle s := if isResponding s || hasResponded s then 0%nat else 1%nat in
  (countRespond (snd (step p s ev)) + idle (fst (step p s ev))
   ≤ (if isRejection ev then 1 else 0) + idle s)%nat.
Proof.
  intros idle. subst idle.
  destruct ev as [| |e|now|i a]; simpl.
  - unfold handleSubmit, disabled.
    destruct (isResponding s) eqn:Hr, (hasResponded s) eqn:Hh,
      (timeLeft s <=? 0)%Z, (allQuestionsAnswered s),
      (truthy (executionProcessId p));
      simpl; rewrite ?Hr, ?Hh; simpl; lia.
  - destruct (isResponding s) eqn:Hr, (hasResponded s) eqn:Hh;
      simpl; rewrite ?Hr, ?Hh; simpl; lia.
  - destruct (isResponding s) eqn:Hr, (hasResponded s) eqn:Hh;
      simpl; rewrite ?Hr, ?Hh; simpl; lia.
  - destruct (timerActive s); simpl; unfold countRespond; simpl; lia.
  - destruct (disabled s); [simpl; unfold countRespond; simpl; lia|].
    destruct (questions p !! i), (answers s !! i);
      try (simpl; unfold countRespond; simpl; lia).
    destruct (formAnswer _ _ _); simpl; unfold countRespond; simpl; lia.
Qed.

Lemma countRespond_bound (p : Props) (evs : list event) (s : State) :
  (countRespond (snd (run p s evs))
   ≤ countRejected evs + (if isResponding s || hasResponded s then 0 else 1))%nat.
Proof.
  revert s. induction evs as [|ev evs IH]; intros s; simpl.
  - unfold countRespond, countRejected. simpl. lia.
  - pose proof (step_countRespond p s ev) as Hstep. simpl in Hstep.
    specialize (IH (fst (step p s ev))).
    destruct (step p s ev) as [s1 out1]. simpl in *.
    destruct (run p s1 evs) as [s2 out2]. simpl in *.
    rewrite countRespond_app. unfold countRejected in *.
    rewrite filter_cons.
    destruct (decide (isRejection ev = true)) as [He|He].
    + rewrite He in Hstep. simpl. lia.
    + apply not_true_is_false in He. rewrite He in Hstep. lia.
Qed.

Theorem respond_calls_bounded_by_rejections (p : Props) (now : Z)
    (evs : list event) :
  (countRespond (snd (run p (initialState p now) evs)) ≤ countRejected evs + 1)%nat.
Proof. apply (countRespond_bound p evs (initialState p now)). Qed.

Lemma formAnswer_question_index (q : UserQuestion) (answer answer' : QuestionAnswer)
    (a : formAction) :
  formAnswer q answer a = Some answer' →
  question_index answer' = question_index answer.
Proof.
  destruct a as [optionIndex checked|checked|text]; simpl.
  - intros [= <-]. unfold handleOptionChange.
    by destruct (multiSelect q), checked, (hasOtherSelected answer).
  - intros [= <-]. by destruct checked.
  - destruct (otherInput answer); [|done]. by intros [= <-].
Qed.

Lemma initialState_slotsIndexed (p : Props) (now : Z) :
  slotsIndexed p (initialState p now).
Proof.
  split; [apply initialState_answers_length|].
  intros i answer. unfold initialState. simpl.
  rewrite list_lookup_imap. destruct (questions p !! i); [|done].
  by intros [= <-].
Qed.

Lemma step_slotsIndexed (p : Props) (s : State) (ev : event) :
  slotsIndexed p s →
  slotsIndexed p (fst (step p s ev)) ∧
  Forall (wellFormedCall p) (snd (step p s ev)).
Proof.
  intros [Hlen Hidx].
  destruct ev as [| |e|now|i a]; simpl.
  - unfold handleSubmit.
    destruct (disabled s) eqn:Hd; simpl; [by split; [|constructor]|].
    destruct (allQuestionsAnswered s) eqn:Ha; simpl; [|by split; [|constructor]].
    destruct (truthy (executionProcessId p)) as [id|] eqn:Hid; simpl;
      [|by split; [|constructor]].
    split; [done|]. constructor; [|constructor]. simpl.
    unfold truthy in Hid. destruct (executionProcessId p) as [id'|]; [|done].
    destruct (String.eqb_spec id' ""); [done|]. injection Hid as <-.
    repeat split; try done. by apply allQuestionsAnswered_spec.
  - destruct (isResponding s); simpl; by split; [|constructor].
  - destruct (isResponding s); simpl; [|by split; [|constructor]].
    split; [done|]. by repeat constructor.
  - destruct (timerActive s); simpl; by split; [|constructor].
  - destruct (disabled s); [by split; [|constructor]|].
    destruct (questions p !! i) as [q|]; [|by split; [|constructor]].
    destruct (answers s !! i) as [answer|] eqn:Hi; [|by split; [|constructor]].
    destruct (formAnswer q answer a) as [answer'|] eqn:Hf;
      [|by split; [|constructor]].
    simpl. split; [|constructor]. split; simpl.
    + by rewrite length_insert.
    + intros j b Hj. destruct (decide (i = j)) as [<-|Hne].
      * rewrite list_lookup_insert_eq in Hj by (by eapply lookup_lt_Some).
        injection Hj as <-.
        rewrite (formAnswer_question_index _ _ _ _ Hf). by apply Hidx.
      * rewrite list_lookup_insert_ne in Hj by done. by apply Hidx.
Qed.

(** X5.  Every call that the component makes from its first render on is
    well formed: it is never an invalidation, and a call of [respond]
    carries the question id and the non-empty process id of the props, and
    one answer per question, in the order of the questions, each with its
    own index and none of them empty. *)
Theorem respond_calls_well_formed (p : Props) (now : Z) (evs : list event) :
  Forall (wellFormedCall p) (snd (run p (initialState p now) evs)) ∧
  slotsIndexed p (fst (run p (initialState p now) evs)).
Proof.
  destruct (run_invariant p (slotsIndexed p) (wellFormedCall p)
              (step_slotsIndexed p) evs (initialState p now)
              (initialState_slotsIndexed p now)) as [H1 H2].
  by split.
Qed.

Lemma formAnswer_slotInvariant (q : UserQuestion) (answer answer' : QuestionAnswer)
    (a : formAction) :
  slotInvariant q answer →
  formAnswer q answer a = Some answer' →
  slotInvariant q answer'.
Proof.
  unfold slotInvariant. destruct (multiSelect q) eqn:Hq.
  - intros Hs. destruct a as [optionIndex checked|checked|text]; simpl.
    + intros [= <-]. unfold handleOptionChange. rewrite Hq. simpl.
      destruct checked; [apply Array_sort_Sorted|by apply Array_remove_Sorted].
    + intros [= <-]. unfold handleOtherToggle.
      destruct checked; simpl; [by rewrite Hq|done].
    + destruct (otherInput answer); [|done]. by intros [= <-].
  - intros [Hlen Hother].
    destruct a as [optionIndex checked|checked|text]; simpl.
    + intros [= <-]. unfold handleOptionChange. rewrite Hq.
      destruct checked; simpl.
      * destruct (hasOtherSelected answer) eqn:Ho; simpl.
        -- split; [lia|]. unfold hasOtherSelected. simpl. done.
        -- split; [lia|]. unfold hasOtherSelected in *. simpl. by rewrite Ho.
      * split; [lia|done].
    + intros [= <-]. unfold handleOtherToggle.
      destruct checked; simpl; rewrite ?Hq; simpl; [split; [lia|done]|].
      split; [done|]. unfold hasOtherSelected. simpl. done.
    + unfold otherInput. destruct (hasOtherSelected answer) eqn:Ho; [|done].
      intros [= <-]. simpl. split; [done|]. intros _. by apply Hother.
Qed.

(** X6.  From the first render on, the answer of a single-select question
    never has more than one selected option, and never has a selected
    option while "other" is active; the list of a multi-select question is
    always in the order of [sort]. *)
Theorem slots_keep_invariant (p : Props) (now : Z) (evs : list event)
    (i : nat) (q : UserQuestion) (answer : QuestionAnswer) :
  questions p !! i = Some q →
  answers (fst (run p (initialState p now) evs)) !! i = Some answer →
  slotInvariant q answer.
Proof.
  intros Hq.
  destruct (run_invariant p
    (λ s, ∀ answer, answers s !! i = Some answer → slotInvariant q answer)
    (λ _, True)) with (evs := evs) (s := initialState p now) as [H _];
    [| |by apply H].
  - intros s ev Hinv. split; [|by apply Forall_forall].
    destruct ev as [| |e|now'|j a]; simpl.
    + unfold handleSubmit.
      destruct (disabled s || negb (allQuestionsAnswered s)); [done|].
      by destruct (truthy (executionProcessId p)).
    + by destruct (isResponding s).
    + by destruct (isResponding s).
    + by destruct (timerActive s).
    + destruct (disabled s); [done|].
      destruct (questions p !! j) as [q'|] eqn:Hq'; [|done].
      destruct (answers s !! j) as [b|] eqn:Hj; [|done].
      destruct (formAnswer q' b a) as [b'|] eqn:Hf; [|done].
      simpl. intros c Hc. destruct (decide (j = i)) as [->|Hne].
      * rewrite list_lookup_insert_eq in Hc by (by eapply lookup_lt_Some).
        injection Hc as <-. rewrite Hq in Hq'. injection Hq' as <-.
        eapply formAnswer_slotInvariant; [|done]. by apply Hinv.
      * rewrite list_lookup_insert_ne in Hc by done. by apply Hinv.
  - intros c. unfold initialState. simpl. rewrite list_lookup_imap, Hq.
    intros [= <-]. unfold slotInvariant. simpl.
    destruct (multiSelect q); [constructor|by split; [lia|]].
Qed.

Lemma slots_keep_invariant_witness :
  slotInvariant (sampleQuestion false)
    {| question_index := 0; selected_options := [1]; custom_text := None |}.
Proof.
  apply (slots_keep_invariant sampleProps 1700000015000
           [FormEvent 0 (OtherToggle true);
            FormEvent 0 (CustomTextChange "neither");
            FormEvent 0 (OptionChange 1 true);
            FormEvent 1 (OptionChange 10 true);
            FormEvent 1 (OptionChange 2 true)] 0).
  - reflexivity.
  - by vm_compute.
Defined.

(** The answers that the component holds are answers that the form has
    built: the empty answer of the first render and what the handlers of
    the question make of it. *)
Lemma slots_are_built (p : Props) (now : Z) (evs : list event)
    (i : nat) (q : UserQuestion) (answer : QuestionAnswer) :
  questions p !! i = Some q →
  answers (fst (run p (initialState p now) evs)) !! i = Some answer →
  built q answer.
Proof.
  intros Hq.
  destruct (run_invariant p
    (λ s, ∀ answer, answers s !! i = Some answer → built q answer)
    (λ _, True)) with (evs := evs) (s := initialState p now) as [H _];
    [| |by apply H].
  - intros s ev Hinv. split; [|by apply Forall_forall].
    destruct ev as [| |e|now'|j a]; simpl.
    + unfold handleSubmit.
      destruct (disabled s || negb (allQuestionsAnswered s)); [done|].
      by destruct (truthy (executionProcessId p)).
    + by destruct (isResponding s).
    + by destruct (isResponding s).
    + by destruct (timerActive s).
    + destruct (disabled s); [done|].
      destruct (questions p !! j) as [q'|] eqn:Hq'; [|done].
      destruct (answers s !! j) as [b|] eqn:Hj; [|done].
      destruct (formAnswer q' b a) as [b'|] eqn:Hf; [|done].
      simpl. intros c Hc. destruct (decide (j = i)) as [->|Hne].
      * rewrite list_lookup_insert_eq in Hc by (by eapply lookup_lt_Some).
        injection Hc as <-. rewrite Hq in Hq'. injection Hq' as <-.
        specialize (Hinv b Hj).
        destruct a as [optionIndex checked|checked|text]; simpl in Hf.
        -- injection Hf as <-. by apply built_option.
        -- injection Hf as <-. by apply built_other.
        -- destruct (otherInput b); [|done]. injection Hf as <-.
           by apply built_text.
      * rewrite list_lookup_insert_ne in Hc by done. by apply Hinv.
  - intros c. unfold initialState. simpl. rewrite list_lookup_imap, Hq.
    intros [= <-]. apply built_empty.
Qed.

(** X7.  At the first render no question is answered: with at least one
    question a click on submit does nothing.  With no question at all the
    guard holds vacuously, and a click on submit, while time is left and
    the process id is known, calls [respond] with an empty list of
    answers. *)
Theorem submit_at_first_render (p : Props) (now : Z) :
  (questions p ≠ [] →
   handleSubmit p (initialState p now) = (initialState p now, [])) ∧
  (questions p = [] →
   (0 < remainingSeconds (timeout_at p) now)%Z →
   ∀ id, truthy (executionProcessId p) = Some id →
   snd (handleSubmit p (initialState p now))
   = [Respond (question_id p)
        {| execution_process_id := id; response_answers := [] |}]).
Proof.
  split.
  - intros Hq. unfold handleSubmit.
    assert (Ha : allQuestionsAnswered (initialState p now) = false).
    { unfold allQuestionsAnswered, initialState. simpl.
      destruct (questions p) as [|q qs]; [done|]. done. }
    rewrite Ha. simpl. by rewrite orb_true_r.
  - intros Hq Ht id Hid. unfold handleSubmit.
    assert (Hd : disabled (initialState p now) = false).
    { apply disabled_false. by simpl. }
    rewrite Hd. unfold allQuestionsAnswered, initialState. simpl.
    by rewrite Hq, Hid.
Qed.

Lemma submit_at_first_render_witness :
  let p := {| questions := [];
              question_id := "question-1";
              requested_at := 1700000000000;
              timeout_at := 1700000060000;
              executionProcessId := Some "process-1" |} in
  handleSubmit sampleProps (initialState sampleProps 1700000015000)
  = (initialState sampleProps 1700000015000, []) ∧
  snd (handleSubmit p (initialState p 1700000015000))
  = [Respond "question-1"
       {| execution_process_id := "process-1"; response_answers := [] |}].
Proof.
  split.
  - apply (submit_at_first_render sampleProps 1700000015000). discriminate.
  - apply (submit_at_first_render
             {| questions := [];
                question_id := "question-1";
                requested_at := 1700000000000;
                timeout_at := 1700000060000;
                executionProcessId := Some "process-1" |} 1700000015000).
    + reflexivity.
    + by vm_compute.
    + reflexivity.
Defined.

Lemma FormEvent_flags (p : Props) (s : State) (i : nat) (a : formAction) :
  let s' := fst (step p s (FormEvent i a)) in
  isResponding s' = isResponding s ∧ hasResponded s' = hasResponded s ∧
  error s' = error s ∧ timeLeft s' = timeLeft s ∧
  timerActive s' = timerActive s ∧ disabled s' = disabled s ∧
  snd (step p s (FormEvent i a)) = [] ∧
  ∀ j, j ≠ i → answers s' !! j = answers s !! j.
Proof.
  simpl. destruct (disabled s) eqn:Hd; [done|].
  destruct (questions p !! i); [|done].
  destruct (answers s !! i); [|done].
  destruct (formAnswer _ _ _); [|done].
  simpl. repeat split; try done.
  intros j Hj. by rewrite list_lookup_insert_ne.
Qed.

(** X8.  The forms of two different questions do not interfere: an action
    in the form of question [i] keeps the flags, the error, [timeLeft] and
    every other answer and makes no call, and two actions in the forms of
    different questions give the same state in either order. *)
Theorem form_events_independent (p : Props) (s : State) (i j : nat)
    (a b : formAction) :
  i ≠ j →
  fst (run p s [FormEvent i a; FormEvent j b])
  = fst (run p s [FormEvent j b; FormEvent i a]) ∧
  snd (run p s [FormEvent i a; FormEvent j b]) = [] ∧
  answers (fst (step p s (FormEvent i a))) !! j = answers s !! j.
Proof.
  intros Hne. split; [|split].
  - simpl. destruct (disabled s) eqn:Hd; simpl; [by rewrite Hd|].
    destruct (questions p !! i) as [qi|] eqn:Hqi;
      destruct (questions p !! j) as [qj|] eqn:Hqj;
      destruct (answers s !! i) as [ai|] eqn:Hai;
      destruct (answers s !! j) as [aj|] eqn:Haj;
      simpl; rewrite ?Hd, ?Hqi, ?Hqj, ?Hai, ?Haj; simpl; try done;
      try (destruct (formAnswer qi ai a) as [ai'|] eqn:Hfi);
      try (destruct (formAnswer qj aj b) as [aj'|] eqn:Hfj);
      simpl; unfold disabled in *; simpl;
      rewrite ?Hd, ?Hqi, ?Hqj, ?Hai, ?Haj; simpl;
      rewrite ?list_lookup_insert_ne by done;
      rewrite ?Hai, ?Haj, ?Hfi, ?Hfj; simpl; try done.
    unfold handleAnswerChange. simpl. f_equal.
    by apply list_insert_insert_ne.
  - pose proof (FormEvent_flags p s i a) as (_ & _ & _ & _ & _ & _ & H1 & _).
    pose proof (FormEvent_flags p (fst (step p s (FormEvent i a))) j b)
      as (_ & _ & _ & _ & _ & _ & H2 & _).
    simpl in *.
    destruct (if disabled s then _ else _) as [s1 out1]. simpl in *.
    destruct (if disabled s1 then _ else _) as [s2 out2]. simpl in *.
    by rewrite H1, H2.
  - pose proof (FormEvent_flags p s i a) as (_ & _ & _ & _ & _ & _ & _ & H).
    apply H. done.
Qed.

Lemma form_events_independent_witness :
  let a := OptionChange 1 true in
  let b := OtherToggle true in
  fst (run sampleProps sampleState [FormEvent 0 a; FormEvent 1 b])
  = fst (run sampleProps sampleState [FormEvent 1 b; FormEvent 0 a]) ∧
  snd (run sampleProps sampleState [FormEvent 0 a; FormEvent 1 b]) = [] ∧
  answers (fst (step sampleProps sampleState (FormEvent 0 a))) !! 1
  = answers sampleState !! 1.
Proof.
  apply (form_events_independent sampleProps sampleState 0 1
           (OptionChange 1 true) (OtherToggle true)).
  discriminate.
Defined.

(** ** Further properties of the answer builder *)

Import FormControls.
Local Open Scope nat_scope.

(** X9.  In a multi-select question the list of selected options behaves
    as a set under the checkboxes: after checking option [i] the options
    selected are [i] and those selected before, after unchecking it they
    are those selected before other than [i], the checkbox of [i] shows the
    new state, and the free text is kept. *)
Theorem multi_select_membership (q : UserQuestion) (answer : QuestionAnswer)
    (i j : nat) :
  multiSelect q = true →
  (j ∈ selected_options (handleOptionChange q answer i true)
     ↔ j = i ∨ j ∈ selected_options answer) ∧
  (j ∈ selected_options (handleOptionChange q answer i false)
     ↔ j ∈ selected_options answer ∧ j ≠ i) ∧
  optionChecked (handleOptionChange q answer i true) i = true ∧
  optionChecked (handleOptionChange q answer i false) i = false ∧
  custom_text (handleOptionChange q answer i true) = custom_text answer ∧
  custom_text (handleOptionChange q answer i false) = custom_text answer.
Proof.
  intros Hq.
  assert (Hadd : ∀ k, k ∈ selected_options (handleOptionChange q answer i true)
                      ↔ k = i ∨ k ∈ selected_options answer).
  { intros k. rewrite handleOptionChange_multi_add by done. apply elem_of_cons. }
  assert (Hdel : ∀ k, k ∈ selected_options (handleOptionChange q answer i false)
                      ↔ k ∈ selected_options answer ∧ k ≠ i).
  { intros k. by apply handleOptionChange_multi_remove. }
  split; [apply Hadd|]. split; [apply Hdel|].
  unfold optionChecked. split; [|split].
  - apply bool_decide_eq_true. apply Hadd. by left.
  - apply bool_decide_eq_false. rewrite Hdel. tauto.
  - unfold handleOptionChange. by rewrite Hq.
Qed.

Lemma multi_select_membership_witness :
  let q := sampleQuestion true in
  let answer := sampleAnswer [1; 4] (Some "more") in
  (4 ∈ selected_options (handleOptionChange q answer 3 true)
     ↔ 4 = 3 ∨ 4 ∈ selected_options answer) ∧
  (4 ∈ selected_options (handleOptionChange q answer 3 false)
     ↔ 4 ∈ selected_options answer ∧ 4 ≠ 3) ∧
  optionChecked (handleOptionChange q answer 3 true) 3 = true ∧
  optionChecked (handleOptionChange q answer 3 false) 3 = false ∧
  custom_text (handleOptionChange q answer 3 true) = custom_text answer ∧
  custom_text (handleOptionChange q answer 3 false) = custom_text answer.
Proof.
  apply (multi_select_membership (sampleQuestion true)
           (sampleAnswer [1; 4] (Some "more")) 3 4).
  reflexivity.
Defined.

(** X10.  In a multi-select question, checking an option that is not
    selected keeps the selected options free of duplicates, and so does
    unchecking any option. *)
Theorem multi_select_keeps_unique (q : UserQuestion) (answer : QuestionAnswer)
    (i : nat) :
  multiSelect q = true →
  NoDup (selected_options answer) →
  (i ∉ selected_options answer →
   NoDup (selected_options (handleOptionChange q answer i true))) ∧
  NoDup (selected_options (handleOptionChange q answer i false)).
Proof.
  intros Hq Hnd. split.
  - intros Hi. by apply handleOptionChange_multi_NoDup.
  - by apply handleOptionChange_multi_NoDup.
Qed.

Lemma multi_select_keeps_unique_witness :
  let q := sampleQuestion true in
  let answer := sampleAnswer [1; 4] None in
  NoDup (selected_options (handleOptionChange q answer 3 true)) ∧
  NoDup (selected_options (handleOptionChange q answer 4 false)).
Proof.
  assert (Hnd : NoDup (selected_options (sampleAnswer [1; 4] None))).
  { cbn. apply NoDup_cons. split; [absent_from_list|].
    apply NoDup_cons. split; [absent_from_list|]. apply NoDup_nil_2. }
  split.
  - apply (multi_select_keeps_unique (sampleQuestion true)
             (sampleAnswer [1; 4] None) 3); [reflexivity|exact Hnd|].
    cbn. absent_from_list.
  - apply (multi_select_keeps_unique (sampleQuestion true)
             (sampleAnswer [1; 4] None) 4); [reflexivity|exact Hnd].
Defined.

Lemma js_sort_le_below_ten (x y : nat) :
  x < 10 → y < 10 → js_sort_le x y → x ≤ y.
Proof.
  intros Hx Hy.
  assert (H : Forall (λ a, Forall (λ b, js_sort_le a b → a ≤ b) (seq 0 10))
                (seq 0 10)).
  { refine (bool_decide_unpack _ _). by vm_compute. }
  rewrite Forall_forall in H. specialize (H x).
  rewrite Forall_forall in H. apply H; apply elem_of_seq; lia.
Qed.

(** X11.  While every index is below ten, as in a question with at most
    ten options, the order of [sort] is the numeric order: after checking
    an option the selected options are in ascending order. *)
Theorem multi_select_sorted_below_ten (q : UserQuestion)
    (answer : QuestionAnswer) (i : nat) :
  multiSelect q = true →
  Forall (λ x, x < 10) (i :: selected_options answer) →
  Sorted le (selected_options (handleOptionChange q answer i true)).
Proof.
  intros Hq Hsmall.
  assert (Hsmall' : Forall (λ x, x < 10)
                      (selected_options (handleOptionChange q answer i true))).
  { by rewrite handleOptionChange_multi_add. }
  assert (Hs : StronglySorted js_sort_le
                 (selected_options (handleOptionChange q answer i true))).
  { apply (Sorted_StronglySorted js_sort_le).
    unfold handleOptionChange. rewrite Hq. simpl. apply Array_sort_Sorted. }
  apply Sorted.StronglySorted_Sorted.
  induction Hs as [|x l Hl IH Hx]; [constructor|].
  apply Forall_cons in Hsmall' as [Hx10 Hl10].
  constructor; [by apply IH|].
  rewrite Forall_forall in Hx, Hl10 |- *. intros y Hy.
  apply js_sort_le_below_ten; auto.
Qed.

Lemma multi_select_sorted_below_ten_witness :
  Sorted le
    (selected_options
       (handleOptionChange (sampleQuestion true) (sampleAnswer [2; 9] None) 5 true)).
Proof.
  apply (multi_select_sorted_below_ten (sampleQuestion true)
           (sampleAnswer [2; 9] None) 5).
  - reflexivity.
  - cbn. repeat (apply Forall_cons; split; [lia|]). apply Forall_nil_2.
Defined.

(** *** Reading back the value of a radio item *)

Lemma digit_cases (d : N) :
  (d < 10)%N →
  (d = 0 ∨ d = 1 ∨ d = 2 ∨ d = 3 ∨ d = 4 ∨ d = 5 ∨ d = 6 ∨ d = 7 ∨ d = 8 ∨ d = 9)%N.
Proof. lia. Qed.

Lemma digitValue_pretty_N_char (d : N) :
  (d < 10)%N → digitValue (pretty_N_char d) = Some d.
Proof.
  intros H. destruct (digit_cases d H) as [->|[->|[->|[->|[->|[->|[->|[->|[->| ->]]]]]]]]];
    reflexivity.
Qed.

Lemma parseInt_digit_string (d : N) (r : string) :
  (d < 10)%N →
  parseInt (String (pretty_N_char d) r)
  = Some (Z.of_N (parseDigits 0 (String (pretty_N_char d) r))).
Proof.
  intros H. destruct (digit_cases d H) as [->|[->|[->|[->|[->|[->|[->|[->|[->| ->]]]]]]]]];
    reflexivity.
Qed.

Lemma parseDigits_pretty_N_go (x : N) :
  ∀ acc s, ∃ k, parseDigits acc (pretty_N_go x s)
                = parseDigits (acc * 10 ^ k + x)%N s.
Proof.
  induction (N.lt_wf_0 x) as [x _ IH]. intros acc s.
  destruct (N.eq_dec x 0%N) as [->|Hx].
  - exists 0%N. rewrite pretty_N_go_0. f_equal. lia.
  - rewrite pretty_N_go_step by lia.
    destruct (IH (x `div` 10)%N) with (acc := acc)
      (s := String (pretty_N_char (x `mod` 10)) s) as [k Hk].
    { apply N.div_lt; lia. }
    exists (k + 1)%N. rewrite Hk. simpl.
    rewrite digitValue_pretty_N_char by (apply N.mod_lt; lia).
    f_equal. rewrite N.pow_add_r, N.pow_1_r.
    pose proof (N.div_mod x 10 ltac:(lia)). lia.
Qed.

Lemma pretty_N_go_head (x : N) :
  ∀ s, (0 < x)%N →
       ∃ d r, (d < 10)%N ∧ pretty_N_go x s = String (pretty_N_char d) r.
Proof.
  induction (N.lt_wf_0 x) as [x _ IH]. intros s Hx.
  rewrite pretty_N_go_step by done.
  destruct (N.eq_dec (x `div` 10)%N 0%N) as [H0|H0].
  - rewrite H0, pretty_N_go_0. exists (x `mod` 10)%N, s.
    split; [apply N.mod_lt; lia|done].
  - apply IH; [by apply N.div_lt|by apply N.neq_0_lt_0].
Qed.

(** [parseInt(String(i), 10)] is [i]. *)
Lemma parseInt_pretty (i : nat) : parseInt (pretty i) = Some (Z.of_nat i).
Proof.
  unfold pretty, pretty_nat, pretty, pretty_N.
  case_decide as Hi.
  - replace i with 0 by lia. reflexivity.
  - destruct (pretty_N_go_head (N.of_nat i) "" ltac:(lia)) as (d & r & Hd & Hgo).
    rewrite Hgo, parseInt_digit_string by done. rewrite <- Hgo.
    destruct (parseDigits_pretty_N_go (N.of_nat i) 0%N "") as [k Hk].
    rewrite Hk. simpl. f_equal. lia.
Qed.

(** X12.  The radio group of a single-select question reads back what it
    shows: the value of the item of option [i] is parsed to [i] and is
    never taken for "other"; after the item of option [i] is chosen the
    group shows that item, and after "other" is chosen it shows "other". *)
Theorem radio_group_round_trip (q : UserQuestion) (answer : QuestionAnswer)
    (i : nat) :
  multiSelect q = false →
  onValueChange q answer (pretty i) = Some (handleOptionChange q answer i true) ∧
  radioValue (handleOptionChange q answer i true) = Some (pretty i) ∧
  onValueChange q answer "other" = Some (handleOtherToggle q answer true) ∧
  radioValue (handleOtherToggle q answer true) = Some "other".
Proof.
  intros Hq. split; [|split; [|done]].
  - unfold onValueChange.
    destruct (String.eqb_spec (pretty i) "other") as [He|_].
    { pose proof (parseInt_pretty i) as Hp. rewrite He in Hp. discriminate. }
    rewrite parseInt_pretty.
    destruct (Z.leb_spec 0 (Z.of_nat i)); [|lia].
    by rewrite Nat2Z.id.
  - unfold radioValue, handleOptionChange, hasOtherSelected. rewrite Hq.
    by destruct (custom_text answer) as [text|] eqn:Htext; simpl; rewrite ?Htext.
Qed.

Lemma radio_group_round_trip_witness :
  let q := sampleQuestion false in
  let answer := sampleAnswer [] (Some "typed") in
  onValueChange q answer (pretty 11) = Some (handleOptionChange q answer 11 true) ∧
  radioValue (handleOptionChange q answer 11 true) = Some (pretty 11) ∧
  onValueChange q answer "other" = Some (handleOtherToggle q answer true) ∧
  radioValue (handleOtherToggle q answer true) = Some "other".
Proof.
  apply (radio_group_round_trip (sampleQuestion false)
           (sampleAnswer [] (Some "typed")) 11).
  reflexivity.
Defined.

(** *** Blank free text *)

Lemma trimStart_empty (s : string) : trimStart s = "" ↔ blank s = true.
Proof.
  unfold blank. induction s as [|c r IH]; simpl; [done|].
  destruct (is_whitespace c); simpl; [done|]. split; discriminate.
Qed.

Lemma trimStart_head (s : string) (c : ascii) (r : string) :
  trimStart s = String c r → is_whitespace c = false.
Proof.
  induction s as [|c' r' IH]; simpl; [done|].
  destruct (is_whitespace c') eqn:Hc; [done|]. by intros [= <- <-].
Qed.

Lemma trimEnd_empty (s : string) : trimEnd s = "" ↔ blank s = true.
Proof.
  unfold blank. induction s as [|c r IH]; simpl; [done|].
  destruct (trimEnd r) eqn:Hr.
  - destruct (is_whitespace c); simpl; [by rewrite <- IH|].
    split; discriminate.
  - split; [discriminate|]. intros H. apply andb_true_iff in H as [_ H].
    apply IH in H. discriminate.
Qed.

(** [s.trim()] is empty exactly for the strings of white space. *)
Lemma trim_empty (s : string) : trim s = "" ↔ blank s = true.
Proof.
  unfold trim. rewrite trimEnd_empty. split.
  - intros H. destruct (trimStart s) as [|c r] eqn:Hs.
    + by apply trimStart_empty.
    + apply trimStart_head in Hs. unfold blank in H. simpl in H.
      rewrite Hs in H. discriminate.
  - intros H. apply trimStart_empty in H. by rewrite H.
Qed.

(** X13.  A question counts as answered exactly when an option is selected
    or the free text has a character that is not white space: "other" with
    no text, or with spaces only, leaves the question unanswered. *)
Theorem answered_iff_selection_or_visible_text (answer : QuestionAnswer) :
  answered answer = true
  ↔ selected_options answer ≠ [] ∨
    ∃ text, custom_text answer = Some text ∧ blank text = false.
Proof.
  rewrite answered_spec. unfold nonEmptyAnswer.
  split; (intros [H|(text & Ht & Hb)]; [by left|right; exists text; split; [done|]]).
  - destruct (blank text) eqn:Hbl; [|done]. by apply trim_empty in Hbl.
  - intros Htrim. apply trim_empty in Htrim. congruence.
Qed.

(** ** Further properties of the countdown *)

Section CountdownFacts.

Import Texts.
Local Open Scope Z_scope.

(** X14.  The percentage follows the remaining time: it does not decrease
    when [timeLeft] grows, it is 0 when no time is left and 100 when
    [timeLeft] is the total or more. *)
Theorem percent_monotone (t1 t2 T : Z) :
  0 ≤ t1 ≤ t2 → 1 ≤ T < 2 ^ 44 →
  percent t1 T ≤ percent t2 T ∧
  percent 0 T = 0 ∧
  (T ≤ t2 → percent t2 T = 100).
Proof.
  intros Ht HT.
  destruct (percent_nearest t1 T) as [Hr1 Hn1]; [lia|lia|].
  destruct (percent_nearest t2 T) as [Hr2 Hn2]; [lia|lia|].
  destruct (percent_nearest 0 T) as [Hr0 Hn0]; [lia|lia|].
  split; [|split].
  - destruct (Z.eq_dec t1 t2) as [->|Hne]; [lia|].
    destruct (Z_lt_le_dec (percent t2 T) (percent t1 T)) as [Hlt|]; [|done].
    exfalso.
    set (p1 := percent t1 T) in *. set (p2 := percent t2 T) in *.
    assert (Hc : Z.min (100 * t1) (100 * T) ≤ Z.min (100 * t2) (100 * T)) by lia.
    set (c1 := Z.min (100 * t1) (100 * T)) in *.
    set (c2 := Z.min (100 * t2) (100 * T)) in *.
    assert (Hp : (p2 + 1) * T ≤ p1 * T) by nia.
    assert (Heq : c1 = c2 ∧ 2 * c2 = 2 * p2 * T + T) by lia.
    destruct Heq as [Heq Hhalf].
    assert (Hclamp : c2 = 100 * T) by (subst c1 c2; lia).
    nia.
  - replace (Z.min (100 * 0) (100 * T)) with 0 in Hn0 by lia. nia.
  - intros HTt. replace (Z.min (100 * t2) (100 * T)) with (100 * T) in Hn2 by lia.
    nia.
Qed.

Lemma percent_monotone_witness :
  percent 12 60 ≤ percent 75 60 ∧ percent 0 60 = 0 ∧
  (60 ≤ 75 → percent 75 60 = 100).
Proof. apply (percent_monotone 12 75 60); lia. Defined.

(** X15.  The remaining time follows the clock: it does not grow when the
    clock advances, it is 0 exactly when less than a whole second is left
    before the timeout, and from the request on it is at most the total. *)
Theorem remainingSeconds_follows_clock (requestedAt timeoutAt now1 now2 : Z) :
  Z.abs (timeoutAt - requestedAt) < 2 ^ 53 →
  Z.abs (timeoutAt - now1) < 2 ^ 53 →
  Z.abs (timeoutAt - now2) < 2 ^ 53 →
  now1 ≤ now2 →
  remainingSeconds timeoutAt now2 ≤ remainingSeconds timeoutAt now1 ∧
  (remainingSeconds timeoutAt now1 = 0 ↔ timeoutAt - now1 < 1000) ∧
  (requestedAt ≤ now1 →
   remainingSeconds timeoutAt now1 ≤ totalSeconds requestedAt timeoutAt).
Proof.
  intros Hreq H1 H2 Hle.
  rewrite !remainingSeconds_value, totalSeconds_value by done.
  split; [|split].
  - assert ((timeoutAt - now2) / 1000 ≤ (timeoutAt - now1) / 1000)
      by (apply Z.div_le_mono; lia). lia.
  - split.
    + intros H. destruct (Z_lt_le_dec (timeoutAt - now1) 1000); [done|].
      assert (1000 / 1000 ≤ (timeoutAt - now1) / 1000)
        by (apply Z.div_le_mono; lia).
      change (1000 / 1000) with 1 in *. lia.
    + intros H. assert ((timeoutAt - now1) / 1000 < 1)
        by (apply Z.div_lt_upper_bound; lia). lia.
  - intros Hr.
    assert ((timeoutAt - now1) / 1000 ≤ (timeoutAt - requestedAt) / 1000)
      by (apply Z.div_le_mono; lia). lia.
Qed.

Lemma remainingSeconds_follows_clock_witness :
  let requestedAt := 1700000000000 in
  let timeoutAt := 1700000060000 in
  let now1 := 1700000059001 in
  let now2 := 1700000059900 in
  remainingSeconds timeoutAt now2 ≤ remainingSeconds timeoutAt now1 ∧
  (remainingSeconds timeoutAt now1 = 0 ↔ timeoutAt - now1 < 1000) ∧
  (requestedAt ≤ now1 →
   remainingSeconds timeoutAt now1 ≤ totalSeconds requestedAt timeoutAt).
Proof.
  apply (remainingSeconds_follows_clock 1700000000000 1700000060000
           1700000059001 1700000059900); by vm_compute.
Defined.

Section FloorDivision.

Local Open Scope Q_scope.

(** [Math.floor(r / d)] for an integer [r] below [2^53] in magnitude and a
    positive integer [d] is the integer quotient rounded down. *)
Lemma floor_div_pos (y : Q) (r d : Z) :
  (Z.abs r < 2 ^ 53)%Z → (0 < d)%Z → y == inject_Z r →
  Math_floor (div y (inject_Z d)) = (r / d)%Z.
Proof.
  intros Hr Hd Hy. unfold Math_floor, div.
  pose proof (Z.div_mod r d ltac:(lia)) as Hdm.
  pose proof (Z.mod_pos_bound r d Hd) as Hj.
  set (k := (r / d)%Z) in *. set (j := (r mod d)%Z) in *.
  assert (Hdq : 0 < inject_Z d)
    by (change 0 with (inject_Z 0); rewrite <- Zlt_Qlt; lia).
  set (x := y / inject_Z d).
  assert (Hxd : x * inject_Z d == inject_Z r) by (unfold x; rewrite Hy; field; lra).
  assert (Hrq : inject_Z r == inject_Z k * inject_Z d + inject_Z j).
  { rewrite <- inject_Z_mult, <- inject_Z_plus. apply inject_Z_injective. lia. }
  destruct (Z.eq_dec j 0%Z) as [Hj0|Hj0].
  - assert (Hk : x == inject_Z k).
    { apply (Qmult_inj_r _ _ (inject_Z d)); [lra|].
      rewrite Hxd, Hrq, Hj0. change (inject_Z 0) with 0. ring. }
    rewrite (double_round_Z _ k); [apply Qfloor_Z| |exact Hk].
    assert (Z.abs k <= Z.abs r)%Z by nia. lia.
  - pose proof (double_round_err x) as [H1 H2].
    rewrite ulp_half_value in H1, H2.
    set (f := double_round x) in *.
    assert (HA : Qabs x * inject_Z d <= 9007199254740991).
    { assert (Hab : Qabs x * inject_Z d == Qabs (inject_Z r)).
      { rewrite <- (Qabs_pos (inject_Z d)) at 1 by lra.
        rewrite <- Qabs_Qmult. now rewrite Hxd. }
      rewrite Hab. apply Qabs_Qle_condition.
      change (- (9007199254740991)) with (inject_Z (- (2 ^ 53 - 1))).
      change 9007199254740991 with (inject_Z (2 ^ 53 - 1)).
      rewrite <- !Zle_Qle. lia. }
    apply (Qmult_le_compat_r _ _ (inject_Z d)) in H1; [|lra].
    apply (Qmult_le_compat_r _ _ (inject_Z d)) in H2; [|lra].
    assert (Hj1 : 1 <= inject_Z j)
      by (change 1 with (inject_Z 1); rewrite <- Zle_Qle; lia).
    assert (Hj2 : inject_Z j + 1 <= inject_Z d).
    { change 1 with (inject_Z 1). rewrite <- inject_Z_plus, <- Zle_Qle. lia. }
    set (A := Qabs x * inject_Z d) in *.
    assert (E1 : (x - Qabs x * (1 # 9007199254740992)) * inject_Z d
                 == x * inject_Z d - A * (1 # 9007199254740992))
      by (unfold A; ring).
    assert (E2 : (x + Qabs x * (1 # 9007199254740992)) * inject_Z d
                 == x * inject_Z d + A * (1 # 9007199254740992))
      by (unfold A; ring).
    rewrite E1 in H1. rewrite E2 in H2. rewrite Hxd, Hrq in H1, H2.
    set (P := inject_Z k * inject_Z d) in *.
    apply Qfloor_unique.
    + apply Qlt_le_weak. apply (Qmult_lt_r _ _ (inject_Z d)); [exact Hdq|].
      fold P. lra.
    + apply (Qmult_lt_r _ _ (inject_Z d)); [exact Hdq|].
      rewrite inject_Z_plus. change (inject_Z 1) with 1.
      assert (E3 : (inject_Z k + 1) * inject_Z d == P + inject_Z d)
        by (unfold P; ring).
      rewrite E3. lra.
Qed.

End FloorDivision.

Lemma parseInt_pretty_Z (z : Z) : 0 ≤ z → parseInt (pretty z) = Some z.
Proof.
  intros Hz. replace (pretty z) with (pretty (Z.to_nat z)).
  - rewrite parseInt_pretty. f_equal. lia.
  - destruct z as [|q|q]; [done| |lia].
    change (pretty (Z.pos q)) with (pretty (N.pos q)).
    change (pretty (Z.to_nat (Z.pos q)))
      with (pretty (N.of_nat (Z.to_nat (Z.pos q)))).
    f_equal. lia.
Qed.

Lemma seconds_field (r : Z) :
  0 ≤ r < 60 →
  String.length (padStart 2 "0" (pretty r)) = 2%nat ∧
  parseInt (padStart 2 "0" (pretty r)) = Some r.
Proof.
  intros Hr.
  assert (H : Forall (λ n, String.length (padStart 2 "0" (pretty (Z.of_nat n))) = 2%nat ∧
                           parseInt (padStart 2 "0" (pretty (Z.of_nat n)))
                           = Some (Z.of_nat n)) (seq 0 60)).
  { refine (bool_decide_unpack _ _). by vm_compute. }
  rewrite Forall_forall in H. specialize (H (Z.to_nat r)).
  rewrite Z2Nat.id in H by lia. apply H, elem_of_seq. lia.
Qed.

(** X16.  While time is left the countdown text is "m:ss remaining": the
    minutes are the whole minutes of [timeLeft], the seconds field always
    has two digits, and the two read back as numbers give
    [60 m + ss = timeLeft]; when no time is left the text is "Timed out". *)
Theorem countdownText_spec (timeLeft : Z) :
  timeLeft < 2 ^ 53 →
  (0 < timeLeft →
   countdownText timeLeft
   = (pretty (timeLeft / 60) +:+ ":" +:+
      padStart 2 "0" (pretty (timeLeft mod 60)) +:+ " remaining")%string ∧
   parseInt (pretty (timeLeft / 60)) = Some (timeLeft / 60) ∧
   String.length (padStart 2 "0" (pretty (timeLeft mod 60))) = 2%nat ∧
   parseInt (padStart 2 "0" (pretty (timeLeft mod 60))) = Some (timeLeft mod 60) ∧
   60 * (timeLeft / 60) + timeLeft mod 60 = timeLeft) ∧
  (timeLeft ≤ 0 → countdownText timeLeft = "Timed out").
Proof.
  intros Hmax. split.
  - intros Hpos. unfold countdownText.
    destruct (Z.ltb_spec 0 timeLeft); [|lia].
    rewrite (floor_div_pos _ timeLeft 60) by (try reflexivity; lia).
    rewrite Z.rem_mod_nonneg by lia.
    pose proof (Z.mod_pos_bound timeLeft 60 ltac:(lia)) as Hm.
    destruct (seconds_field (timeLeft mod 60) Hm) as [Hlen Hparse].
    repeat split; try done.
    + apply parseInt_pretty_Z. apply Z.div_pos; lia.
    + pose proof (Z.div_mod timeLeft 60 ltac:(lia)). lia.
  - intros Hle. unfold countdownText.
    by destruct (Z.ltb_spec 0 timeLeft); [lia|].
Qed.

Lemma countdownText_spec_witness :
  countdownText 125 = "2:05 remaining" ∧
  (countdownText 125
   = (pretty (125 / 60) +:+ ":" +:+
      padStart 2 "0" (pretty (125 mod 60)) +:+ " remaining")%string ∧
   parseInt (pretty (125 / 60)) = Some (125 / 60) ∧
   String.length (padStart 2 "0" (pretty (125 mod 60))) = 2%nat ∧
   parseInt (padStart 2 "0" (pretty (125 mod 60))) = Some (125 mod 60) ∧
   60 * (125 / 60) + 125 mod 60 = 125).
Proof.
  split; [by vm_compute|].
  apply (countdownText_spec 125); by vm_compute.
Defined.

End CountdownFacts.

(** * The import dialog *)

(** ** Sets of ids *)

Lemma JSSet_elem_of_add (x y : string) (set : list string) :
  y ∈ JSSet.add x set ↔ y = x ∨ y ∈ set.
Proof.
  unfold JSSet.add, JSSet.has. case_bool_decide as Hx.
  - split; [by right|]. by intros [->|?].
  - rewrite elem_of_app, list_elem_of_singleton. tauto.
Qed.

Lemma JSSet_elem_of_delete (x y : string) (set : list string) :
  y ∈ JSSet.delete x set ↔ y ∈ set ∧ y ≠ x.
Proof. unfold JSSet.delete. rewrite list_elem_of_filter. tauto. Qed.

Lemma JSSet_add_NoDup (x : string) (set : list string) :
  NoDup set → NoDup (JSSet.add x set).
Proof.
  intros Hnd. unfold JSSet.add, JSSet.has. case_bool_decide as Hx; [done|].
  apply NoDup_app. split; [done|]. split; [|apply NoDup_singleton].
  intros y Hy Hy'. apply list_elem_of_singleton in Hy'. by subst.
Qed.

Lemma JSSet_delete_NoDup (x : string) (set : list string) :
  NoDup set → NoDup (JSSet.delete x set).
Proof. intros Hnd. by apply NoDup_filter. Qed.

Lemma JSSet_ofList_spec (xs : list string) :
  NoDup (JSSet.ofList xs) ∧ ∀ y, y ∈ JSSet.ofList xs ↔ y ∈ xs.
Proof.
  unfold JSSet.ofList.
  assert (H : ∀ set, NoDup set →
                NoDup (foldl (λ set x, JSSet.add x set) set xs) ∧
                ∀ y, y ∈ foldl (λ set x, JSSet.add x set) set xs
                     ↔ y ∈ set ∨ y ∈ xs).
  { induction xs as [|x xs IH]; intros set Hnd; simpl.
    - split; [done|]. intros y. rewrite elem_of_nil. tauto.
    - destruct (IH (JSSet.add x set) (JSSet_add_NoDup x set Hnd)) as [H1 H2].
      split; [done|]. intros y.
      rewrite H2, JSSet_elem_of_add, elem_of_cons. tauto. }
  destruct (H [] (NoDup_nil_2)) as [H1 H2]. split; [done|].
  intros y. rewrite H2, elem_of_nil. tauto.
Qed.

Lemma JSSet_delete_absent (x : string) (set : list string) :
  x ∉ set → JSSet.delete x set = set.
Proof.
  unfold JSSet.delete. induction set as [|y set IH]; [done|].
  rewrite not_elem_of_cons. intros [Hne Hset].
  rewrite filter_cons. case_decide; [by rewrite IH|congruence].
Qed.

Lemma JSSet_delete_present (x : string) (set : list string) :
  NoDup set → x ∈ set → set ≡ₚ x :: JSSet.delete x set.
Proof.
  unfold JSSet.delete. induction 1 as [|y set Hy Hnd IH]; [by rewrite elem_of_nil|].
  rewrite elem_of_cons, filter_cons. intros [->|Hx].
  - case_decide; [done|]. fold (JSSet.delete y set).
    by rewrite JSSet_delete_absent.
  - case_decide as Hne; [|by subst].
    rewrite (IH Hx) at 1. apply Permutation_swap.
Qed.

(** ** The selection *)

(** X17.  Clicking the checkbox of a task twice gives the selection back:
    the same ids, as many of them, and the very same list when the task
    was not selected; when it was selected, its id moves to the end of the
    list that an import sends. *)
Theorem toggleTask_twice (notionId : string) (s : NotionImport.State) :
  NoDup (NotionImport.selectedIds s) →
  let s'' := NotionImport.toggleTask notionId (NotionImport.toggleTask notionId s) in
  NotionImport.selectedIds s'' ≡ₚ NotionImport.selectedIds s ∧
  NoDup (NotionImport.selectedIds s'') ∧
  NotionImport.isPending s'' = NotionImport.isPending s ∧
  (notionId ∉ NotionImport.selectedIds s →
   NotionImport.selectedIds s'' = NotionImport.selectedIds s) ∧
  (notionId ∈ NotionImport.selectedIds s →
   NotionImport.selectedIds s''
   = JSSet.delete notionId (NotionImport.selectedIds s) ++ [notionId]).
Proof.
  intros Hnd. simpl. set (l := NotionImport.selectedIds s) in *.
  destruct (decide (notionId ∈ l)) as [Hin|Hout].
  - assert (E : (if JSSet.has notionId
                      (if JSSet.has notionId l then JSSet.delete notionId l
                       else JSSet.add notionId l)
                 then JSSet.delete notionId
                        (if JSSet.has notionId l then JSSet.delete notionId l
                         else JSSet.add notionId l)
                 else JSSet.add notionId
                        (if JSSet.has notionId l then JSSet.delete notionId l
                         else JSSet.add notionId l))
                = JSSet.delete notionId l ++ [notionId]).
    { unfold JSSet.has at 2 3 4. rewrite bool_decide_eq_true_2 by done.
      unfold JSSet.has. rewrite bool_decide_eq_false_2.
      - unfold JSSet.add, JSSet.has. rewrite bool_decide_eq_false_2; [done|].
        rewrite JSSet_elem_of_delete. tauto.
      - rewrite JSSet_elem_of_delete. tauto. }
    rewrite E. repeat split; try done.
    + rewrite (JSSet_delete_present notionId l Hnd Hin) at 2.
      by rewrite Permutation_app_comm.
    + apply NoDup_app. split; [by apply JSSet_delete_NoDup|].
      split; [|apply NoDup_singleton].
      intros y Hy Hy'. apply list_elem_of_singleton in Hy'. subst.
      apply JSSet_elem_of_delete in Hy. tauto.
  - assert (E : (if JSSet.has notionId
                      (if JSSet.has notionId l then JSSet.delete notionId l
                       else JSSet.add notionId l)
                 then JSSet.delete notionId
                        (if JSSet.has notionId l then JSSet.delete notionId l
                         else JSSet.add notionId l)
                 else JSSet.add notionId
                        (if JSSet.has notionId l then JSSet.delete notionId l
                         else JSSet.add notionId l))
                = l).
    { unfold JSSet.has at 2 3 4. rewrite bool_decide_eq_false_2 by done.
      unfold JSSet.has. rewrite bool_decide_eq_true_2.
      - unfold JSSet.add, JSSet.has. rewrite bool_decide_eq_false_2 by done.
        unfold JSSet.delete. rewrite filter_app. fold (JSSet.delete notionId l).
        rewrite JSSet_delete_absent by done.
        rewrite filter_cons. case_decide; [done|]. by rewrite filter_nil, app_nil_r.
      - apply JSSet_elem_of_add. by left. }
    rewrite E. repeat split; try done.
Qed.

Lemma toggleTask_twice_witness :
  let s := {| NotionImport.selectedIds := ["a"; "b"; "c"];
              NotionImport.isPending := false |} in
  let s'' := NotionImport.toggleTask "a" (NotionImport.toggleTask "a" s) in
  NotionImport.selectedIds s'' = ["b"; "c"; "a"] ∧
  NotionImport.selectedIds s'' ≡ₚ NotionImport.selectedIds s ∧
  NoDup (NotionImport.selectedIds s'') ∧
  NotionImport.isPending s'' = NotionImport.isPending s ∧
  ("a" ∉ NotionImport.selectedIds s →
   NotionImport.selectedIds s'' = NotionImport.selectedIds s) ∧
  ("a" ∈ NotionImport.selectedIds s →
   NotionImport.selectedIds s''
   = JSSet.delete "a" (NotionImport.selectedIds s) ++ ["a"]).
Proof.
  split; [by vm_compute|].
  apply (toggleTask_twice "a"
           {| NotionImport.selectedIds := ["a"; "b"; "c"];
              NotionImport.isPending := false |}).
  refine (bool_decide_unpack _ _). by vm_compute.
Defined.

Lemma allSelected_spec (preview : option NotionImport.PreviewResponse)
    (s : NotionImport.State) :
  NotionImport.allSelected preview s = true
  ↔ NotionImport.importableTasks preview ≠ [] ∧
    ∀ x, x ∈ NotionImport.importableIds preview → x ∈ NotionImport.selectedIds s.
Proof.
  unfold NotionImport.allSelected, NotionImport.importableIds.
  rewrite andb_true_iff, Nat.ltb_lt, forallb_forall. split.
  - intros [Hlen Hall]. split.
    + destruct (NotionImport.importableTasks preview); [simpl in Hlen; lia|done].
    + intros x Hx. apply list_elem_of_fmap in Hx as (t & -> & Ht).
      apply list_elem_of_In in Ht. specialize (Hall t Ht).
      by apply bool_decide_eq_true in Hall.
  - intros [Hne Hall]. split.
    + destruct (NotionImport.importableTasks preview); [done|simpl; lia].
    + intros t Ht. apply bool_decide_eq_true. apply Hall.
      apply list_elem_of_fmap. exists t. split; [done|]. by apply list_elem_of_In.
Qed.

(** X18.  The select-all button, shown while the preview has importable
    tasks: when not every importable task is selected, a click selects
    exactly the importable tasks, each once, after which all are selected;
    when all are selected, a click empties the selection.  Two clicks in a
    row from a partial selection therefore leave nothing selected. *)
Theorem handleSelectAll_spec (preview : option NotionImport.PreviewResponse)
    (s : NotionImport.State) :
  NotionImport.importableTasks preview ≠ [] →
  let s' := NotionImport.handleSelectAll preview s in
  (NotionImport.allSelected preview s = true →
   NotionImport.selectedIds s' = []) ∧
  (NotionImport.allSelected preview s = false →
   NotionImport.allSelected preview s' = true ∧
   NoDup (NotionImport.selectedIds s') ∧
   (∀ x, x ∈ NotionImport.selectedIds s' ↔ x ∈ NotionImport.importableIds preview) ∧
   NotionImport.selectedIds (NotionImport.handleSelectAll preview s') = []).
Proof.
  intros Hne. simpl. unfold NotionImport.handleSelectAll. split.
  - by intros ->.
  - intros Hall. rewrite Hall. simpl.
    destruct (JSSet_ofList_spec
                (NotionImport.notion_id <$> NotionImport.importableTasks preview))
      as [Hnd Hin].
    assert (Hall' : NotionImport.allSelected preview
              {| NotionImport.selectedIds :=
                   JSSet.ofList (NotionImport.notion_id
                                   <$> NotionImport.importableTasks preview);
                 NotionImport.isPending := NotionImport.isPending s |} = true).
    { apply allSelected_spec. split; [done|]. intros x Hx. simpl. by apply Hin. }
    repeat split; try done.
    + by apply Hin.
    + by apply Hin.
    + by rewrite Hall'.
Qed.

Lemma handleSelectAll_spec_witness :
  let s := {| NotionImport.selectedIds := ["n3"];
              NotionImport.isPending := false |} in
  let s' := NotionImport.handleSelectAll (Some samplePreview) s in
  NotionImport.selectedIds s' = ["n1"; "n3"] ∧
  (NotionImport.allSelected (Some samplePreview) s = true →
   NotionImport.selectedIds s' = []) ∧
  (NotionImport.allSelected (Some samplePreview) s = false →
   NotionImport.allSelected (Some samplePreview) s' = true ∧
   NoDup (NotionImport.selectedIds s') ∧
   (∀ x, x ∈ NotionImport.selectedIds s'
         ↔ x ∈ NotionImport.importableIds (Some samplePreview)) ∧
   NotionImport.selectedIds
     (NotionImport.handleSelectAll (Some samplePreview) s') = []).
Proof.
  split; [by vm_compute|].
  apply (handleSelectAll_spec (Some samplePreview)
           {| NotionImport.selectedIds := ["n3"];
              NotionImport.isPending := false |}).
  discriminate.
Defined.

(** ** The imports *)

Lemma NotionImport_run_invariant (projectId : string)
    (preview : option NotionImport.PreviewResponse)
    (I : NotionImport.State → Prop) (O : NotionImport.effect → Prop) :
  (∀ s ev, I s → I (fst (NotionImport.step projectId preview s ev)) ∧
                 Forall O (snd (NotionImport.step projectId preview s ev))) →
  ∀ evs s, I s → I (fst (NotionImport.run projectId preview s evs)) ∧
                 Forall O (snd (NotionImport.run projectId preview s evs)).
Proof.
  intros Hstep. induction evs as [|ev evs IH]; intros s Hs; simpl.
  - by split; [|constructor].
  - destruct (Hstep s ev Hs) as [H1 Hout1].
    destruct (NotionImport.step projectId preview s ev) as [s1 out1]. simpl in *.
    destruct (IH s1 H1) as [H2 Hout2].
    destruct (NotionImport.run projectId preview s1 evs) as [s2 out2]. simpl in *.
    split; [done|]. by apply Forall_app.
Qed.

(** X19.  Whatever the user does in the dialog, the selection holds
    distinct ids of importable tasks only, and every import that the dialog
    starts sends the project id with a non-empty list of such ids: a task
    that will not be imported is never sent, and nothing is sent twice. *)
Theorem imports_well_formed (projectId : string)
    (preview : option NotionImport.PreviewResponse)
    (evs : list NotionImport.event) :
  let result := NotionImport.run projectId preview NotionImport.initialState evs in
  Forall (NotionImport.wellFormedImport projectId preview) (snd result) ∧
  NoDup (NotionImport.selectedIds (fst result)) ∧
  ∀ x, x ∈ NotionImport.selectedIds (fst result)
       → x ∈ NotionImport.importableIds preview.
Proof.
  simpl.
  destruct (NotionImport_run_invariant projectId preview
    (λ s, NoDup (NotionImport.selectedIds s) ∧
          ∀ x, x ∈ NotionImport.selectedIds s
               → x ∈ NotionImport.importableIds preview)
    (NotionImport.wellFormedImport projectId preview))
    with (evs := evs) (s := NotionImport.initialState) as [[H1 H2] H3];
    [| |done].
  - intros s ev [Hnd Hsub].
    destruct ev as [position| | | | |]; simpl.
    + destruct preview as [response|]; [|by split; [|constructor]].
      destruct (NotionImport.tasks response !! position) as [task|] eqn:Htask;
        [|by split; [|constructor]].
      destruct (NotionImport.will_import task) eqn:Hwill;
        [|by split; [|constructor]].
      split; [|constructor]. simpl.
      assert (Hid : NotionImport.notion_id task
                    ∈ NotionImport.importableIds (Some response)).
      { unfold NotionImport.importableIds. simpl. apply list_elem_of_fmap.
        exists task. split; [done|]. apply list_elem_of_In, filter_In.
        split; [|done]. apply list_elem_of_In. by eapply list_elem_of_lookup_2. }
      destruct (JSSet.has (NotionImport.notion_id task) (NotionImport.selectedIds s)).
      * split; [by apply JSSet_delete_NoDup|].
        intros x Hx. apply JSSet_elem_of_delete in Hx as [Hx _]. by apply Hsub.
      * split; [by apply JSSet_add_NoDup|].
        intros x Hx. apply JSSet_elem_of_add in Hx as [->|Hx]; [done|by apply Hsub].
    + destruct (0 <? length (NotionImport.importableTasks preview))%nat;
        [|by split; [|constructor]].
      split; [|constructor]. unfold NotionImport.handleSelectAll.
      destruct (NotionImport.allSelected preview s); simpl.
      * split; [apply NoDup_nil_2|]. intros x Hx. by apply elem_of_nil in Hx.
      * destruct (JSSet_ofList_spec
                    (NotionImport.notion_id <$> NotionImport.importableTasks preview))
          as [Hnd' Hin].
        split; [done|]. intros x Hx. by apply Hin.
    + unfold NotionImport.importDisabled, JSSet.size.
      destruct (NotionImport.selectedIds s) as [|x l] eqn:Hsel; simpl;
        [by split; [rewrite Hsel|constructor]|].
      destruct (NotionImport.isPending s); simpl;
        [by split; [rewrite Hsel|constructor]|].
      split; [by rewrite Hsel|]. constructor; [|constructor].
      simpl. rewrite Hsel. repeat split; try done.
    + destruct (NotionImport.isPending s); simpl; [|by split; [|constructor]].
      split; [done|]. by repeat constructor.
    + destruct (NotionImport.isPending s); simpl; by split; [|constructor].
    + split; [done|]. by repeat constructor.
  - split; [apply NoDup_nil_2|]. intros x Hx. by apply elem_of_nil in Hx.
Qed.

(** The imports started, and the settlings of the mutation. *)
Lemma NotionImport_step_imports (projectId : string)
    (preview : option NotionImport.PreviewResponse)
    (s : NotionImport.State) (ev : NotionImport.event) :
  let idle s := if NotionImport.isPending s then 0 else 1 in
  NotionImport.countImports (snd (NotionImport.step projectId preview s ev))
  + idle (fst (NotionImport.step projectId preview s ev))
  ≤ (if NotionImport.isSettled ev then 1 else 0) + idle s.
Proof.
  simpl. destruct ev as [position| | | | |]; simpl.
  - destruct preview as [response|]; [|simpl; lia].
    destruct (NotionImport.tasks response !! position) as [task|]; [|simpl; lia].
    destruct (NotionImport.will_import task); simpl; lia.
  - destruct (0 <? length (NotionImport.importableTasks preview))%nat; [|simpl; lia].
    unfold NotionImport.handleSelectAll.
    destruct (NotionImport.allSelected preview s); simpl; lia.
  - unfold NotionImport.importDisabled.
    destruct (JSSet.size (NotionImport.selectedIds s) =? 0)%nat; simpl; [lia|].
    destruct (NotionImport.isPending s) eqn:Hp; simpl; rewrite ?Hp; simpl; lia.
  - destruct (NotionImport.isPending s) eqn:Hp; simpl; rewrite ?Hp; simpl; lia.
  - destruct (NotionImport.isPending s) eqn:Hp; simpl; rewrite ?Hp; simpl; lia.
  - simpl. lia.
Qed.

(** X20.  The dialog never has two imports in flight: along any sequence
    of events the imports started are at most one more than the settlings
    of the mutation, and every invalidation of the task list follows a
    settled import. *)
Theorem imports_one_at_a_time (projectId : string)
    (preview : option NotionImport.PreviewResponse)
    (evs : list NotionImport.event) :
  let out := snd (NotionImport.run projectId preview NotionImport.initialState evs) in
  NotionImport.countImports out ≤ NotionImport.countSettled evs + 1 ∧
  NotionImport.countInvalidations out ≤ NotionImport.countImports out.
Proof.
  simpl.
  assert (H : ∀ evs s,
    let out := snd (NotionImport.run projectId preview s evs) in
    NotionImport.countImports out
    ≤ NotionImport.countSettled evs + (if NotionImport.isPending s then 0 else 1) ∧
    NotionImport.countInvalidations out
    ≤ NotionImport.countImports out + (if NotionImport.isPending s then 1 else 0)).
  { clear evs. induction evs as [|ev evs IH]; intros s; simpl.
    { unfold NotionImport.countImports, NotionImport.countInvalidations,
        NotionImport.countSettled. simpl.
      destruct (NotionImport.isPending s); lia. }
    pose proof (NotionImport_step_imports projectId preview s ev) as Hstep.
    simpl in Hstep.
    assert (Hinv : NotionImport.countInvalidations
                     (snd (NotionImport.step projectId preview s ev))
                   + (if NotionImport.isPending
                           (fst (NotionImport.step projectId preview s ev))
                      then 1 else 0)
                   ≤ NotionImport.countImports
                       (snd (NotionImport.step projectId preview s ev))
                     + (if NotionImport.isPending s then 1 else 0)).
    { destruct ev as [position| | | | |]; simpl.
      - destruct preview as [response|]; [|simpl; lia].
        destruct (NotionImport.tasks response !! position) as [task|]; [|simpl; lia].
        destruct (NotionImport.will_import task); simpl; lia.
      - destruct (0 <? length (NotionImport.importableTasks preview))%nat; [|simpl; lia].
        unfold NotionImport.handleSelectAll.
        destruct (NotionImport.allSelected preview s); simpl; lia.
      - unfold NotionImport.importDisabled.
        destruct (JSSet.size (NotionImport.selectedIds s) =? 0)%nat; simpl; [lia|].
        destruct (NotionImport.isPending s) eqn:Hp; simpl; rewrite ?Hp; simpl; lia.
      - destruct (NotionImport.isPending s) eqn:Hp; simpl; rewrite ?Hp; simpl; lia.
      - destruct (NotionImport.isPending s) eqn:Hp; simpl; rewrite ?Hp; simpl; lia.
      - simpl. lia. }
    specialize (IH (fst (NotionImport.step projectId preview s ev))).
    destruct (NotionImport.step projectId preview s ev) as [s1 out1]. simpl in *.
    destruct (NotionImport.run projectId preview s1 evs) as [s2 out2]. simpl in *.
    unfold NotionImport.countImports, NotionImport.countInvalidations,
      NotionImport.countSettled in *.
    rewrite !filter_app, !length_app, filter_cons.
    destruct (decide (NotionImport.isSettled ev = true)) as [He|He].
    - rewrite He in Hstep. simpl. lia.
    - apply not_true_is_false in He. rewrite He in Hstep. lia. }
  specialize (H evs NotionImport.initialState). simpl in H. lia.
Qed.
